(** * go-argue: the debate prompt composer, the Ollama streaming client and
      the turn orchestrator, embedded from the Go sources.

    - [prompt.go]   : [BuildDebatePrompt], [FormatHistory]
    - [ollama.go]   : [NewOllamaClient], [GenerateResponse]; the orchestrator,
                      [debateModel] with [Update], [getNextModel], [switchTurn]
    - [messages.go] : the messages of the orchestrator
    - [main.go]     : the initial model

    Go strings are byte strings: they are [string] here.  A Go [int] is a
    64-bit integer: it is a [Z], wrapped where the code does arithmetic. *)

From Stdlib Require Import String Ascii List ZArith Bool Lia DecimalString.
Import ListNotations.
Local Open Scope string_scope.

(* ===================================================================== *)
(** ** Strings *)

(** The two characters of the Go literals that a Rocq literal cannot hold
    as they are: the line feed and the double quote. *)
Definition nl : string := String "010"%char EmptyString.
Definition dq : string := String "034"%char EmptyString.

(** [strings.Contains(s, sub)]. *)
Definition contains (s sub : string) : Prop :=
  exists pre post, s = pre ++ sub ++ post.

(** A [strings.Builder] is an append-only buffer.  The model keeps the
    arguments of the successive [WriteString] calls; [String()] is their
    concatenation. *)
Definition Builder := list string.

Definition WriteString (b : Builder) (s : string) : Builder := (b ++ [s])%list.

Definition Builder_String (b : Builder) : string :=
  fold_right append "" b.

(* ===================================================================== *)
(** ** Data model *)

Definition Time := Z.

(** [type Turn struct { ModelName string; Content string; Timestamp time.Time }].
    The history [[]Turn] is a list: [Update] returns the model it was given,
    and the claims compare the history before and after a call by its
    contents. *)
Record Turn := mkTurn {
  ModelName : string;
  Content   : string;
  Timestamp : Time
}.

(* ===================================================================== *)
(** ** prompt.go *)

(** [FormatHistory]: the loop [for i, turn := range history], with the
    index [i] and [n = len(history)] carried along. *)
Fixpoint FormatHistory_loop (formatted : Builder) (i n : nat) (rest : list Turn)
  : Builder :=
  match rest with
  | [] => formatted
  | turn :: rest' =>
      let formatted :=
        WriteString formatted ("[" ++ ModelName turn ++ "]: " ++ Content turn) in
      let formatted :=
        if (i <? n - 1)%nat then WriteString formatted (nl ++ nl) else formatted in
      FormatHistory_loop formatted (S i) n rest'
  end.

Definition FormatHistory (history : list Turn) : string :=
  Builder_String (FormatHistory_loop [] 0 (length history) history).

Definition topicLine (topic : string) : string :=
  "You are participating in a debate on the topic: " ++ dq ++ topic ++ dq ++ nl ++ nl.

Definition roleLine (currentModel : string) : string :=
  "You are " ++ currentModel
  ++ ". Your role is to present arguments and respond to your opponent's points."
  ++ nl ++ nl.

Definition openingInstruction : string :=
  "You will be presenting the opening argument. Take a clear position on this topic and present your initial arguments."
  ++ nl ++ nl.

Definition opposingInstruction : string :=
  "You will be responding to the opening argument. Take an opposing or alternative perspective and present your counterarguments."
  ++ nl ++ nl.

Definition previousDiscussion : string := "Previous discussion:" ++ nl.

Definition nextArgumentInstruction : string :=
  "Provide your next argument or response. Be thoughtful, specific, and engage directly with the previous points made."
  ++ nl.

Definition openingArgumentInstruction : string :=
  "Provide your opening argument. Be thoughtful, specific, and clearly state your position."
  ++ nl.

(** The body of [BuildDebatePrompt] up to [prompt.String()]: the builder
    after the last write. *)
Definition BuildDebatePrompt_builder
  (topic : string) (history : list Turn) (currentModel : string)
  (isFirstTurn : bool) : Builder :=
  let prompt : Builder := [] in
  let prompt := WriteString prompt (topicLine topic) in
  let prompt := WriteString prompt (roleLine currentModel) in
  let prompt :=
    if isFirstTurn then
      if (length history =? 0)%nat
      then WriteString prompt openingInstruction
      else WriteString prompt opposingInstruction
    else prompt in
  let prompt :=
    if (0 <? length history)%nat then
      let prompt := WriteString prompt previousDiscussion in
      let prompt := WriteString prompt (FormatHistory history) in
      WriteString prompt nl
    else prompt in
  let prompt :=
    if (0 <? length history)%nat
    then WriteString prompt nextArgumentInstruction
    else WriteString prompt openingArgumentInstruction in
  prompt.

Definition BuildDebatePrompt
  (topic : string) (history : list Turn) (currentModel : string)
  (isFirstTurn : bool) : string :=
  Builder_String (BuildDebatePrompt_builder topic history currentModel isFirstTurn).

(** The attribution tag of a turn, as [FormatHistory] writes it. *)
Definition attribution (t : Turn) : string := "[" ++ ModelName t ++ "]:".

(* ===================================================================== *)
(** ** ollama.go: the client *)

Record OllamaClient := mkClient { baseURL : string }.

Definition defaultBaseURL : string := "http://localhost:11434".

Definition NewOllamaClient (baseURL : string) : OllamaClient :=
  let baseURL := if String.eqb baseURL "" then defaultBaseURL else baseURL in
  {| baseURL := baseURL |}.

(* ===================================================================== *)
(** ** Go's [strings.TrimSpace]

    The standard library function removes the leading and the trailing
    white space of a string, as Unicode defines it, on the UTF-8 encoding.
    The white-space runes are listed with their encodings. *)

Fixpoint bytes (l : list nat) : string :=
  match l with
  | [] => ""
  | b :: l' => String (ascii_of_nat b) (bytes l')
  end.

Definition unicodeSpaces : list string :=
  [ bytes [9]; bytes [10]; bytes [11]; bytes [12]; bytes [13]; bytes [32];
    bytes [194; 133]; bytes [194; 160];               (* U+0085, U+00A0 *)
    bytes [225; 154; 128];                            (* U+1680 *)
    bytes [226; 128; 128]; bytes [226; 128; 129]; bytes [226; 128; 130];
    bytes [226; 128; 131]; bytes [226; 128; 132]; bytes [226; 128; 133];
    bytes [226; 128; 134]; bytes [226; 128; 135]; bytes [226; 128; 136];
    bytes [226; 128; 137]; bytes [226; 128; 138];     (* U+2000 .. U+200A *)
    bytes [226; 128; 168]; bytes [226; 128; 169];     (* U+2028, U+2029 *)
    bytes [226; 128; 175];                            (* U+202F *)
    bytes [226; 129; 159];                            (* U+205F *)
    bytes [227; 128; 128] ].                          (* U+3000 *)

Fixpoint stripPrefix (p s : string) : option string :=
  match p with
  | "" => Some s
  | String a p' =>
      match s with
      | "" => None
      | String b s' => if Ascii.eqb a b then stripPrefix p' s' else None
      end
  end.

Fixpoint stripAny (tokens : list string) (s : string) : option string :=
  match tokens with
  | [] => None
  | t :: tokens' =>
      match stripPrefix t s with
      | Some rest => Some rest
      | None => stripAny tokens' s
      end
  end.

Fixpoint trimLeading (tokens : list string) (fuel : nat) (s : string) : string :=
  match fuel with
  | O => s
  | S fuel' =>
      match stripAny tokens s with
      | Some rest => trimLeading tokens fuel' rest
      | None => s
      end
  end.

Fixpoint revString (acc s : string) : string :=
  match s with
  | "" => acc
  | String c s' => revString (String c acc) s'
  end.

Definition TrimLeft (s : string) : string :=
  trimLeading unicodeSpaces (String.length s) s.

Definition TrimRight (s : string) : string :=
  revString ""
    (trimLeading (map (revString "") unicodeSpaces) (String.length s)
       (revString "" s)).

Definition TrimSpace (s : string) : string := TrimRight (TrimLeft s).

(** A string made of white-space runes only (the empty string included). *)
Inductive blank : string -> Prop :=
| blank_empty : blank ""
| blank_space : forall t s, In t unicodeSpaces -> blank s -> blank (t ++ s).

(* ===================================================================== *)
(** ** Errors *)

(** The error values the program builds.  [Errorf_w prefix cause] is
    [fmt.Errorf(prefix + ": %w", cause)]; [Errorf_status code] is
    [fmt.Errorf("Ollama API returned status %d", code)]; [errors_New] stands
    for an error of a library (net/http, encoding/json, bufio). *)
Inductive error : Type :=
| context_Canceled
| context_DeadlineExceeded
| errors_New (msg : string)
| Errorf_w (prefix : string) (cause : error)
| Errorf_status (code : Z).

Fixpoint Error (e : error) : string :=
  match e with
  | context_Canceled => "context canceled"
  | context_DeadlineExceeded => "context deadline exceeded"
  | errors_New msg => msg
  | Errorf_w prefix cause => prefix ++ ": " ++ Error cause
  | Errorf_status code =>
      "Ollama API returned status "
      ++ NilZero.string_of_int (Z.to_int code)
  end.

Definition error_eqb_leaf (e target : error) : bool :=
  match e, target with
  | context_Canceled, context_Canceled => true
  | context_DeadlineExceeded, context_DeadlineExceeded => true
  | _, _ => false
  end.

(** [errors.Is(e, target)] for the two sentinel errors of [context]: the
    chain of [%w] wrappers is followed. *)
Fixpoint errors_Is (e target : error) : bool :=
  error_eqb_leaf e target
  || match e with
     | Errorf_w _ cause => errors_Is cause target
     | _ => false
     end.

(* ===================================================================== *)
(** ** ollama.go: the streaming generation *)

(** [type GenerateResponse struct], one record of the stream (the [Context]
    token list plays no part in the client). *)
Record GenerateResponseRecord := mkRecord {
  Model    : string;
  Response : string;
  Done     : bool
}.

(** The body of the HTTP response as [bufio.Scanner] delivers it: the lines
    in order, then what [scanner.Err()] returns when [Scan] gives up. *)
Record HTTPResponse := mkResponse {
  StatusCode : Z;
  Body       : list string;
  BodyErr    : option error
}.

Definition StatusOK : Z := 200.

(** What the transport does with the request. *)
Inductive Transport : Type :=
| NewRequestFails (err : error)      (* http.NewRequestWithContext *)
| DoFails (err : error)              (* c.httpClient.Do *)
| Responds (resp : HTTPResponse).

(** The [context.Context] of the call, as the goroutine sees it.  The
    goroutine looks at [ctx.Done()] at two places for the line of index
    [i]: the [select] with [default] after [scanner.Scan()], and the
    [select] that hands the chunk to the caller.  [doneAtScan i] says that
    the first finds the context done; [doneAtSend i] says that the second
    takes the [ctx.Done()] case rather than the send.  [ctxErr] is
    [ctx.Err()] of a done context. *)
Inductive CancelCause := byCancel | byDeadline.

Record Context := mkContext {
  cause      : CancelCause;
  doneAtScan : nat -> bool;
  doneAtSend : nat -> bool
}.

Definition ctxErr (ctx : Context) : error :=
  match cause ctx with
  | byCancel => context_Canceled
  | byDeadline => context_DeadlineExceeded
  end.

(** [context.Background()]: never done. *)
Definition context_Background : Context :=
  {| cause := byCancel; doneAtScan := fun _ => false; doneAtSend := fun _ => false |}.

(** What the caller gets from the two channels before they are closed: the
    chunks received on [responseChan], in order, and the error sent on
    [errorChan], if any. *)
Record Outcome := mkOutcome {
  chunks  : list string;
  failure : option error
}.

Section Client.

(** [json.Unmarshal(line, &genResp)] of encoding/json. *)
Variable json_Unmarshal : string -> error + GenerateResponseRecord.

(** The loop [for scanner.Scan() { ... }] and the check of
    [scanner.Err()] after it; [i] is the index of the next line and
    [sent] the chunks handed over so far. *)
Fixpoint scanLoop (ctx : Context) (bodyErr : option error)
         (i : nat) (lines : list string) (sent : list string) : Outcome :=
  match lines with
  | [] =>
      match bodyErr with
      | Some err => mkOutcome sent (Some (Errorf_w "error reading response" err))
      | None => mkOutcome sent None
      end
  | line :: rest =>
      if doneAtScan ctx i then mkOutcome sent (Some (ctxErr ctx))
      else if (String.length line =? 0)%nat then
        scanLoop ctx bodyErr (S i) rest sent
      else
        match json_Unmarshal line with
        | inl err => mkOutcome sent (Some (Errorf_w "failed to parse response" err))
        | inr genResp =>
            if negb (String.eqb (Response genResp) "") then
              if doneAtSend ctx i then mkOutcome sent (Some (ctxErr ctx))
              else
                let sent := (sent ++ [Response genResp])%list in
                if Done genResp then mkOutcome sent None
                else scanLoop ctx bodyErr (S i) rest sent
            else
              if Done genResp then mkOutcome sent None
              else scanLoop ctx bodyErr (S i) rest sent
        end
  end.

(** The goroutine of [GenerateResponse].  ([json.Marshal] of a request of
    two strings and a boolean does not fail.) *)
Definition GenerateResponse (ctx : Context) (transport : Transport) : Outcome :=
  match transport with
  | NewRequestFails err => mkOutcome [] (Some (Errorf_w "failed to create request" err))
  | DoFails err => mkOutcome [] (Some (Errorf_w "failed to send request" err))
  | Responds resp =>
      if negb (StatusCode resp =? StatusOK)%Z
      then mkOutcome [] (Some (Errorf_status (StatusCode resp)))
      else scanLoop ctx (BodyErr resp) 0 (Body resp) []
  end.

(** The lines the loop goes through without stopping, from index [i]:
    no cancellation seen, and each line empty or a record that is not the
    last one. *)
Fixpoint passes (ctx : Context) (i : nat) (lines : list string) : bool :=
  match lines with
  | [] => true
  | line :: rest =>
      negb (doneAtScan ctx i)
      && (if (String.length line =? 0)%nat then true
          else match json_Unmarshal line with
               | inl _ => false
               | inr genResp =>
                   negb (Done genResp)
                   && (String.eqb (Response genResp) "" || negb (doneAtSend ctx i))
               end)
      && passes ctx (S i) rest
  end.

(** The chunks of the records of [lines]. *)
Fixpoint chunksOf (lines : list string) : list string :=
  match lines with
  | [] => []
  | line :: rest =>
      if (String.length line =? 0)%nat then chunksOf rest
      else match json_Unmarshal line with
           | inl _ => chunksOf rest
           | inr genResp =>
               if String.eqb (Response genResp) "" then chunksOf rest
               else Response genResp :: chunksOf rest
           end
  end.

(** A record with the completion flag set. *)
Definition isDoneRecord (line : string) : bool :=
  negb (String.length line =? 0)%nat
  && match json_Unmarshal line with
     | inl _ => false
     | inr genResp => Done genResp
     end.

(** The loop ends on the line of index [i]: it is a record with the
    completion flag, read and handed over with no cancellation seen. *)
Definition finishes (ctx : Context) (i : nat) (line : string) : bool :=
  negb (doneAtScan ctx i)
  && isDoneRecord line
  && match json_Unmarshal line with
     | inl _ => false
     | inr genResp => String.eqb (Response genResp) "" || negb (doneAtSend ctx i)
     end.

End Client.

(* ===================================================================== *)
(** ** messages.go and the messages of Bubble Tea *)

Inductive Msg : Type :=
| KeyMsg (key : string)                    (* tea.KeyMsg, by its [String()] *)
| WindowSizeMsg (Width Height : Z)         (* tea.WindowSizeMsg *)
| responseChunkMsg (chunk : string)
| responseCompleteMsg (fullResponse : string)
| responseErrorMsg (err : error)
| stopDebateMsg
| otherMsg (tag : nat).                    (* any message [Update] has no case for *)

(** The two widgets of the bubbles library that the model embeds, at their
    interface: the text input and the viewport. *)
Class Widgets := {
  textinput_Model : Type;
  viewport_Model : Type;
  widget_Cmd : Type;
  textinput_zero : textinput_Model;
  viewport_zero : viewport_Model;
  textinput_Value : textinput_Model -> string;
  textinput_Update : textinput_Model -> Msg -> textinput_Model * widget_Cmd;
  viewport_withWidth : viewport_Model -> Z -> viewport_Model;
  viewport_withHeight : viewport_Model -> Z -> viewport_Model;
  viewport_SetContent : viewport_Model -> string -> viewport_Model;
  viewport_GotoBottom : viewport_Model -> viewport_Model;
  viewport_Update : viewport_Model -> Msg -> viewport_Model * widget_Cmd
}.

(** Go's [int] arithmetic wraps around at 64 bits. *)
Definition wrap64 (z : Z) : Z := ((z + 2 ^ 63) mod 2 ^ 64 - 2 ^ 63)%Z.

(* ===================================================================== *)
(** ** The turn orchestrator ([debateModel] and [Update]) *)

Inductive appState := stateInput | stateDebating | stateStopped | stateError.

Definition appState_eqb (a b : appState) : bool :=
  match a, b with
  | stateInput, stateInput | stateDebating, stateDebating
  | stateStopped, stateStopped | stateError, stateError => true
  | _, _ => false
  end.

Section Orchestrator.

Context {W : Widgets}.

(** [tea.Cmd]: what [Update] asks the runtime to do next.
    [generateResponseCmd] is the closure [m.generateResponse()] returns,
    by the request it issues when the runtime calls it. *)
#[warnings="-register-all"]
Inductive Cmd : Type :=
| nilCmd
| tea_Quit
| generateResponseCmd (client : OllamaClient) (modelName prompt : string)
| widgetCmd (c : widget_Cmd)
| tea_Batch (cmds : list Cmd).

Record debateModel := mkModel {
  model1Name   : string;
  model2Name   : string;
  ollamaClient : OllamaClient;
  topic        : string;
  history      : list Turn;
  currentTurn  : Z;          (* 0 for model1, 1 for model2 *)
  isGenerating : bool;
  state        : appState;
  viewport     : viewport_Model;
  textInput    : textinput_Model;
  errorMsg     : string;
  width        : Z;
  height       : Z
}.

(** Assignments to one field of [m]. *)
Definition set_topic (m : debateModel) (v : string) : debateModel :=
  mkModel (model1Name m) (model2Name m) (ollamaClient m) v (history m)
    (currentTurn m) (isGenerating m) (state m) (viewport m) (textInput m)
    (errorMsg m) (width m) (height m).
Definition set_history (m : debateModel) (v : list Turn) : debateModel :=
  mkModel (model1Name m) (model2Name m) (ollamaClient m) (topic m) v
    (currentTurn m) (isGenerating m) (state m) (viewport m) (textInput m)
    (errorMsg m) (width m) (height m).
Definition set_currentTurn (m : debateModel) (v : Z) : debateModel :=
  mkModel (model1Name m) (model2Name m) (ollamaClient m) (topic m) (history m)
    v (isGenerating m) (state m) (viewport m) (textInput m)
    (errorMsg m) (width m) (height m).
Definition set_isGenerating (m : debateModel) (v : bool) : debateModel :=
  mkModel (model1Name m) (model2Name m) (ollamaClient m) (topic m) (history m)
    (currentTurn m) v (state m) (viewport m) (textInput m)
    (errorMsg m) (width m) (height m).
Definition set_state (m : debateModel) (v : appState) : debateModel :=
  mkModel (model1Name m) (model2Name m) (ollamaClient m) (topic m) (history m)
    (currentTurn m) (isGenerating m) v (viewport m) (textInput m)
    (errorMsg m) (width m) (height m).
Definition set_viewport (m : debateModel) (v : viewport_Model) : debateModel :=
  mkModel (model1Name m) (model2Name m) (ollamaClient m) (topic m) (history m)
    (currentTurn m) (isGenerating m) (state m) v (textInput m)
    (errorMsg m) (width m) (height m).
Definition set_textInput (m : debateModel) (v : textinput_Model) : debateModel :=
  mkModel (model1Name m) (model2Name m) (ollamaClient m) (topic m) (history m)
    (currentTurn m) (isGenerating m) (state m) (viewport m) v
    (errorMsg m) (width m) (height m).
Definition set_errorMsg (m : debateModel) (v : string) : debateModel :=
  mkModel (model1Name m) (model2Name m) (ollamaClient m) (topic m) (history m)
    (currentTurn m) (isGenerating m) (state m) (viewport m) (textInput m)
    v (width m) (height m).
Definition set_width (m : debateModel) (v : Z) : debateModel :=
  mkModel (model1Name m) (model2Name m) (ollamaClient m) (topic m) (history m)
    (currentTurn m) (isGenerating m) (state m) (viewport m) (textInput m)
    (errorMsg m) v (height m).
Definition set_height (m : debateModel) (v : Z) : debateModel :=
  mkModel (model1Name m) (model2Name m) (ollamaClient m) (topic m) (history m)
    (currentTurn m) (isGenerating m) (state m) (viewport m) (textInput m)
    (errorMsg m) (width m) v.

(** [getNextModel]: [currentTurn] 0 means model1, anything else model2. *)
Definition getNextModel (m : debateModel) : string :=
  if (currentTurn m =? 0)%Z then model1Name m else model2Name m.

(** [switchTurn]. *)
Definition switchTurn (m : debateModel) : debateModel :=
  if (currentTurn m =? 0)%Z then set_currentTurn m 1 else set_currentTurn m 0.

(** [generateResponse]: the request of the command it returns. *)
Definition generateResponse (m : debateModel) : Cmd :=
  let modelName := getNextModel m in
  let isFirstTurn := (length (history m) =? 0)%nat in
  let prompt := BuildDebatePrompt (topic m) (history m) modelName isFirstTurn in
  generateResponseCmd (ollamaClient m) modelName prompt.

(** [formatDebateHistory]. *)
Definition formatDebateHistory (m : debateModel) : string :=
  let output : Builder :=
    fold_left
      (fun output turn =>
         WriteString output
           ("[" ++ ModelName turn ++ "]: " ++ Content turn ++ nl ++ nl))
      (history m) [] in
  let output :=
    if isGenerating m
    then WriteString output ("[" ++ getNextModel m ++ " is thinking...]" ++ nl)
    else output in
  Builder_String output.

(** [m.history[len(m.history)-1]], when [len(m.history) > 0]. *)
Definition lastTurn (h : list Turn) : option Turn :=
  nth_error h (length h - 1).

(** [len(m.history) > 0 && m.history[len(m.history)-1].ModelName == name] *)
Definition lastTurnIsFrom (h : list Turn) (name : string) : bool :=
  match lastTurn h with
  | Some t => String.eqb (ModelName t) name
  | None => false
  end.

(** [m.history[len(m.history)-1] = t], when [len(m.history) > 0]. *)
Definition setLastTurn (h : list Turn) (t : Turn) : list Turn :=
  (firstn (length h - 1) h ++ [t])%list.

(** The end of [Update], after the [switch]: the viewport sees the
    message when the debate is on or stopped. *)
Definition updateViewport (m : debateModel) (msg : Msg) (cmds : list Cmd)
  : debateModel * Cmd :=
  if appState_eqb (state m) stateDebating || appState_eqb (state m) stateStopped
  then
    let '(vp, cmd) := viewport_Update (viewport m) msg in
    (set_viewport m vp, tea_Batch (cmds ++ [widgetCmd cmd]))
  else (m, tea_Batch cmds).

(** [Update]; [now] is what [time.Now()] returns during the call. *)
Definition Update (m : debateModel) (msg : Msg) (now : Time)
  : debateModel * Cmd :=
  match msg with
  | KeyMsg key =>
      if String.eqb key "ctrl+c" || String.eqb key "q" then
        if appState_eqb (state m) stateDebating
        then (set_state m stateStopped, tea_Quit)
        else (m, tea_Quit)
      else if String.eqb key "enter" && appState_eqb (state m) stateInput then
        let topic := textinput_Value (textInput m) in
        if (String.length (TrimSpace topic) =? 0)%nat then
          (set_errorMsg m "Topic cannot be empty", nilCmd)
        else
          let m := set_topic m topic in
          let m := set_state m stateDebating in
          let m := set_errorMsg m "" in
          let m := set_isGenerating m true in
          let m := set_currentTurn m 0 in
          (m, generateResponse m)
      else if appState_eqb (state m) stateInput then
        let '(ti, cmd) := textinput_Update (textInput m) msg in
        updateViewport (set_textInput m ti) msg [widgetCmd cmd]
      else updateViewport m msg []
  | WindowSizeMsg Width Height =>
      let m := set_width m Width in
      let m := set_height m Height in
      let m :=
        if appState_eqb (state m) stateDebating
           || appState_eqb (state m) stateStopped
        then
          let vp := viewport_withWidth (viewport m) Width in
          let vp := viewport_withHeight vp (wrap64 (Height - 5)) in
          set_viewport m vp
        else m in
      updateViewport m msg []
  | responseChunkMsg chunk =>
      let m :=
        if isGenerating m then
          let m :=
            if lastTurnIsFrom (history m) (getNextModel m) then
              match lastTurn (history m) with
              | Some t =>
                  set_history m
                    (setLastTurn (history m)
                       (mkTurn (ModelName t) (Content t ++ chunk) (Timestamp t)))
              | None => m
              end
            else
              set_history m
                (history m ++ [mkTurn (getNextModel m) chunk now])%list in
          set_viewport m
            (viewport_GotoBottom
               (viewport_SetContent (viewport m) (formatDebateHistory m)))
        else m in
      updateViewport m msg []
  | responseCompleteMsg fullResponse =>
      let m := set_isGenerating m false in
      let m :=
        if (length (history m) =? 0)%nat
           || negb (match lastTurn (history m) with
                    | Some t => String.eqb (Content t) fullResponse
                    | None => false
                    end)
        then
          if lastTurnIsFrom (history m) (getNextModel m) then
            match lastTurn (history m) with
            | Some t =>
                set_history m
                  (setLastTurn (history m) (mkTurn (ModelName t) fullResponse now))
            | None => m
            end
          else
            set_history m
              (history m ++ [mkTurn (getNextModel m) fullResponse now])%list
        else m in
      let m := switchTurn m in
      let m := set_isGenerating m true in
      (m, generateResponse m)
  | responseErrorMsg err =>
      let m := set_isGenerating m false in
      let m := set_errorMsg m ("Error: " ++ Error err) in
      let m := switchTurn m in
      let m := set_isGenerating m true in
      (m, generateResponse m)
  | stopDebateMsg =>
      let m := set_isGenerating m false in
      let m := set_state m stateStopped in
      (m, tea_Quit)
  | otherMsg _ => updateViewport m msg []
  end.

(** What the [responseCompleteMsg] case leaves in [m.history]. *)
Definition afterComplete (m : debateModel) (fullResponse : string) (now : Time)
  : list Turn :=
  match lastTurn (history m) with
  | None => [mkTurn (getNextModel m) fullResponse now]
  | Some t =>
      if String.eqb (Content t) fullResponse then history m
      else if String.eqb (ModelName t) (getNextModel m)
           then setLastTurn (history m) (mkTurn (ModelName t) fullResponse now)
           else (history m ++ [mkTurn (getNextModel m) fullResponse now])%list
  end.

(** What the [responseChunkMsg] case leaves in [m.history]. *)
Definition afterChunk (m : debateModel) (chunk : string) (now : Time)
  : list Turn :=
  if isGenerating m then
    match lastTurn (history m) with
    | None => [mkTurn (getNextModel m) chunk now]
    | Some t =>
        if String.eqb (ModelName t) (getNextModel m)
        then setLastTurn (history m)
               (mkTurn (ModelName t) (Content t ++ chunk) (Timestamp t))
        else (history m ++ [mkTurn (getNextModel m) chunk now])%list
    end
  else history m.

(** The model [main] starts the program with. *)
Definition initialModel (model1 model2 : string) (client : OllamaClient)
  : debateModel :=
  {| model1Name := model1; model2Name := model2; ollamaClient := client;
     topic := ""; history := []; currentTurn := 0; isGenerating := false;
     state := stateInput; viewport := viewport_zero; textInput := textinput_zero;
     errorMsg := ""; width := 0; height := 0 |}.

(** The models the program goes through: [Update] applied to the
    messages the runtime delivers, from the initial model. *)
Inductive reachable (model1 model2 : string) (client : OllamaClient)
  : debateModel -> Prop :=
| reachable_init : reachable model1 model2 client (initialModel model1 model2 client)
| reachable_Update : forall m msg now,
    reachable model1 model2 client m ->
    reachable model1 model2 client (fst (Update m msg now)).

(** Consecutive turns are from different models. *)
Fixpoint alternates (h : list Turn) : bool :=
  match h with
  | [] => true
  | t :: rest =>
      match rest with
      | [] => true
      | t' :: _ => negb (String.eqb (ModelName t) (ModelName t')) && alternates rest
      end
  end.

(** The run of [Update] over a list of messages (the clock ticks once a
    message). *)
Fixpoint run (m : debateModel) (now : Time) (msgs : list Msg) : debateModel :=
  match msgs with
  | [] => m
  | msg :: msgs' => run (fst (Update m msg now)) (now + 1)%Z msgs'
  end.

End Orchestrator.

(** The widgets reduced to what the model stores in them: the text input
    is its value (a key press that is one character appends it), the
    viewport its size and content. *)
Record plainViewport := mkViewport {
  vpWidth : Z; vpHeight : Z; vpContent : string
}.

#[export] Instance plainWidgets : Widgets := {|
  textinput_Model := string;
  viewport_Model := plainViewport;
  widget_Cmd := unit;
  textinput_zero := "";
  viewport_zero := mkViewport 0 0 "";
  textinput_Value := fun ti => ti;
  textinput_Update := fun ti msg =>
    match msg with
    | KeyMsg key => if (String.length key =? 1)%nat then (ti ++ key, tt) else (ti, tt)
    | _ => (ti, tt)
    end;
  viewport_withWidth := fun vp w => mkViewport w (vpHeight vp) (vpContent vp);
  viewport_withHeight := fun vp h => mkViewport (vpWidth vp) h (vpContent vp);
  viewport_SetContent := fun vp s => mkViewport (vpWidth vp) (vpHeight vp) s;
  viewport_GotoBottom := fun vp => vp;
  viewport_Update := fun vp _ => (vp, tt)
|}.

(** The session of the design scenario: participants [A] and [B], the
    topic typed as one key, then submitted. *)
Definition sessionStart : debateModel :=
  initialModel "A" "B" (NewOllamaClient "").

Definition sessionRunning : debateModel :=
  run sessionStart 0%Z [KeyMsg "t"; KeyMsg "enter"].

(* ===================================================================== *)
(** ** Records in canonical form

    The backend writes each record as
    [{"model":m,"response":r,"done":b}] followed by a line feed (the design
    document shows the stream so, and so does [json.Encoder] for a
    [GenerateResponse] without context tokens).  [canonicalUnmarshal] decodes
    that form, for texts without quote or backslash, and rejects any other
    line; it stands for [json.Unmarshal] where the client is run on a
    concrete stream. *)

Definition recordLine (model response : string) (done : bool) : string :=
  "{" ++ dq ++ "model" ++ dq ++ ":" ++ dq ++ model ++ dq
  ++ "," ++ dq ++ "response" ++ dq ++ ":" ++ dq ++ response ++ dq
  ++ "," ++ dq ++ "done" ++ dq ++ ":" ++ (if done then "true" else "false") ++ "}".

Fixpoint splitAtQuote (s : string) : option (string * string) :=
  match s with
  | "" => None
  | String c s' =>
      if Ascii.eqb c "034"%char then Some ("", s')
      else match splitAtQuote s' with
           | Some (text, rest) => Some (String c text, rest)
           | None => None
           end
  end.

Definition canonicalUnmarshal (line : string) : error + GenerateResponseRecord :=
  let invalid := inl (errors_New "invalid character") in
  match stripPrefix ("{" ++ dq ++ "model" ++ dq ++ ":" ++ dq) line with
  | None => invalid
  | Some s1 =>
      match splitAtQuote s1 with
      | None => invalid
      | Some (model, s2) =>
          match stripPrefix ("," ++ dq ++ "response" ++ dq ++ ":" ++ dq) s2 with
          | None => invalid
          | Some s3 =>
              match splitAtQuote s3 with
              | None => invalid
              | Some (response, s4) =>
                  if String.eqb s4 ("," ++ dq ++ "done" ++ dq ++ ":true}")
                  then inr (mkRecord model response true)
                  else if String.eqb s4 ("," ++ dq ++ "done" ++ dq ++ ":false}")
                  then inr (mkRecord model response false)
                  else invalid
              end
          end
      end
  end.

(* ===================================================================== *)
(** ** prompt.go: the line of a turn *)

(** What [FormatHistory] writes for one turn:
    [fmt.Sprintf("[%s]: %s", turn.ModelName, turn.Content)]. *)
Definition turnLine (t : Turn) : string :=
  "[" ++ ModelName t ++ "]: " ++ Content t.

(* ===================================================================== *)
(** ** ollama.go: the model catalog *)

(** What the transport does with [GET url]: the request fails, or a
    response comes with a status and a body; [decoded] is what
    [json.NewDecoder(resp.Body).Decode(&result)] makes of the body, the
    names of [result.Models] in order. *)
Inductive TagsTransport : Type :=
| GetFails (err : error)
| TagsResponds (StatusCode : Z) (decoded : error + list string).

Section Catalog.

(** [c.httpClient.Get]. *)
Variable httpGet : string -> TagsTransport.

(** [ListModels]. *)
Definition ListModels (c : OllamaClient) : error + list string :=
  let url := baseURL c ++ "/api/tags" in
  match httpGet url with
  | GetFails err => inl (Errorf_w "failed to connect to Ollama" err)
  | TagsResponds status decoded =>
      if negb (status =? StatusOK)%Z then inl (Errorf_status status)
      else
        match decoded with
        | inl err => inl (Errorf_w "failed to parse Ollama response" err)
        | inr names => inr names
        end
  end.

(** The loop [for _, model := range models] of [ValidateModel]. *)
Fixpoint findModel (models : list string) (modelName : string) : bool :=
  match models with
  | [] => false
  | model :: rest =>
      if String.eqb model modelName then true else findModel rest modelName
  end.

(** [ValidateModel]: [None] is the [nil] error. *)
Definition ValidateModel (c : OllamaClient) (modelName : string) : option error :=
  match ListModels c with
  | inl err => Some (Errorf_w "failed to list models" err)
  | inr models =>
      if findModel models modelName then None
      else Some (errors_New ("model '" ++ modelName ++ "' not found in Ollama"))
  end.

End Catalog.

(* ===================================================================== *)
(** ** ollama.go: the request of a generation *)

(** [type GenerateRequest struct]. *)
Record GenerateRequest := mkRequest {
  reqModel  : string;
  reqPrompt : string;
  reqStream : bool
}.

Section Program.

Context {W : Widgets}.

(** [json.Unmarshal] of a line of the stream, and the backend: what the
    transport does with the [POST] of a request to a URL. *)
Variable json_Unmarshal : string -> error + GenerateResponseRecord.
Variable backend : string -> GenerateRequest -> Transport.

(** The method [GenerateResponse] of the client: the request is built and posted,
    the goroutine runs on what comes back. *)
Definition OllamaClient_GenerateResponse
  (c : OllamaClient) (ctx : Context) (modelName prompt : string) : Outcome :=
  let reqBody := {| reqModel := modelName; reqPrompt := prompt; reqStream := true |} in
  let url := baseURL c ++ "/api/generate" in
  GenerateResponse json_Unmarshal ctx (backend url reqBody).

(** The loop of the command of [generateResponse] over the two channels.
    The chunks go into [fullResponse] as they come.  The goroutine ends by
    closing both channels, after it has put the error, if any, into the
    buffer of [errorChan]: with no error the loop leaves when it receives
    from the closed [responseChan]; with an error it leaves with the error,
    unless the [select] finds the closed [responseChan] ready as well and
    takes it ([takesClosed]). *)
Definition collectOutcome (out : Outcome) (takesClosed : bool) : Msg :=
  let fullResponse : Builder :=
    fold_left (fun fullResponse chunk => WriteString fullResponse chunk)
      (chunks out) [] in
  match failure out with
  | Some err =>
      if takesClosed then responseCompleteMsg (Builder_String fullResponse)
      else responseErrorMsg err
  | None => responseCompleteMsg (Builder_String fullResponse)
  end.

(** The message the command of [m.generateResponse()] comes back with. *)
Definition generateResponse_run (m : debateModel) (takesClosed : bool) : Msg :=
  let modelName := getNextModel m in
  let isFirstTurn := (length (history m) =? 0)%nat in
  let prompt := BuildDebatePrompt (topic m) (history m) modelName isFirstTurn in
  let ctx := context_Background in
  collectOutcome
    (OllamaClient_GenerateResponse (ollamaClient m) ctx modelName prompt)
    takesClosed.

(** One round of the program: the command of [generateResponse] runs and
    its message goes through [Update]. *)
Definition debateRound (m : debateModel) (takesClosed : bool) (now : Time)
  : debateModel :=
  fst (Update m (generateResponse_run m takesClosed) now).

End Program.

Section Startup.

Context {W : Widgets}.

(** What [main] ends with: [os.Exit(1)] after the lines written to the
    standard error, or the program started on its initial model. *)
Inductive Startup : Type :=
| Exits (code : Z) (stderr : list string)
| Starts (initial : debateModel).

(** The three lines [main] writes when a model is not available. *)
Definition unavailable (model : string) : list string :=
  [ "Error: Model '" ++ model ++ "' is not available." ++ nl;
    "Please ensure Ollama is running and the model is installed." ++ nl;
    "You can install it with: ollama pull " ++ model ++ nl ].

(** [main], after the flags are parsed; [get1] and [get2] are the
    transport at the first and at the second call of [ValidateModel]. *)
Definition main (model1 model2 : string) (get1 get2 : string -> TagsTransport)
  : Startup :=
  let client := NewOllamaClient "" in
  match ValidateModel get1 client model1 with
  | Some _ => Exits 1 (unavailable model1)
  | None =>
      match ValidateModel get2 client model2 with
      | Some _ => Exits 1 (unavailable model2)
      | None => Starts (initialModel model1 model2 client)
      end
  end.

End Startup.

(* ===================================================================== *)
(** ** Strings made of tokens *)

(** A concatenation of strings of [tokens]; [blank] is [madeOf unicodeSpaces]. *)
Inductive madeOf (tokens : list string) : string -> Prop :=
| madeOf_empty : madeOf tokens ""
| madeOf_token : forall t s, In t tokens -> madeOf tokens s -> madeOf tokens (t ++ s).

(** A line of the body that is not empty. *)
Definition nonEmptyLine (line : string) : bool :=
  negb (String.length line =? 0)%nat.

(* ===================================================================== *)
(** ** prompt.go: where a text can occur in the prompt *)

(** The sentence of each position instruction: the instruction as
    [BuildDebatePrompt] writes it, without the blank line after it. *)
Definition openingSentence : string :=
  "You will be presenting the opening argument. Take a clear position on this topic and present your initial arguments.".

Definition opposingSentence : string :=
  "You will be responding to the opening argument. Take an opposing or alternative perspective and present your counterarguments.".

(** The fixed texts of the first two writes of [BuildDebatePrompt], around
    the topic and the name of the participant. *)
Definition topicLineHead : string :=
  "You are participating in a debate on the topic: " ++ dq.

Definition roleLineHead : string := dq ++ nl ++ nl ++ "You are ".

Definition roleLineTail : string :=
  ". Your role is to present arguments and respond to your opponent's points."
  ++ nl ++ nl.

(** A text of the caller carries [k]: the topic, the name of the
    participant, or the name or the content of a turn contains it. *)
Definition carries (k topic currentModel : string) (history : list Turn) : Prop :=
  contains topic k \/ contains currentModel k
  \/ exists t, In t history /\ (contains (ModelName t) k \/ contains (Content t) k).

Definition startsWith (p s : string) : bool :=
  match stripPrefix p s with Some _ => true | None => false end.

(** [k] occurs in [s]. *)
Fixpoint occursb (k s : string) : bool :=
  startsWith k s
  || match s with "" => false | String _ s' => occursb k s' end.

Definition carriesb (k topic currentModel : string) (history : list Turn) : bool :=
  occursb k topic || occursb k currentModel
  || existsb (fun t => occursb k (ModelName t) || occursb k (Content t)) history.

(** [s] ends with [x]. *)
Fixpoint endsWithb (s x : string) : bool :=
  String.eqb s x
  || match s with "" => false | String _ s' => endsWithb s' x end.

(** Some split of [x1 ++ x2] after [x1], in two parts the second of which
    comes from [x2] and neither of which is empty, satisfies [P]. *)
Fixpoint anySplit (P : string -> string -> bool) (x1 x2 : string) : bool :=
  match x2 with
  | "" => false
  | String c x2' =>
      let x1' := x1 ++ String c "" in
      match x2' with "" => false | _ => P x1' x2' || anySplit P x1' x2' end
  end.

(** The fixed text [f] ends with the beginning of [K]. *)
Definition overlapsEnd (f K : string) : bool :=
  anySplit (fun x1 _ => endsWithb f x1) "" K.

(** [K] can begin in a text that does not contain [k] and continue in the
    fixed text [f] after it. *)
Definition overlapsStart (k K f : string) : bool :=
  anySplit (fun x1 x2 => negb (startsWith k x1)
                         && (startsWith x2 f || startsWith f x2)) "" K.

(** [K] neither occurs in the fixed text [f] nor begins at its end. *)
Definition apartFrom (K f : string) : bool :=
  negb (occursb K f) && negb (overlapsEnd f K).

(** [K] begins with [k], and the fixed texts of the prompt stand apart
    from it: an occurrence of [K] in a prompt is then in the position
    instruction or goes through a text of the caller that contains [k]. *)
Definition instructionSafe (k K : string) : bool :=
  startsWith k K
  && apartFrom K topicLineHead && apartFrom K roleLineHead
  && apartFrom K roleLineTail && apartFrom K previousDiscussion
  && apartFrom K "[" && apartFrom K "]: " && apartFrom K nl
  && negb (occursb K openingArgumentInstruction)
  && negb (occursb K nextArgumentInstruction)
  && negb (overlapsStart k K roleLineHead)
  && negb (overlapsStart k K roleLineTail)
  && negb (overlapsStart k K "]: ")
  && negb (overlapsStart k K nl).

(* ===================================================================== *)
(** * Theorems *)

(** ** Strings and builders *)

Lemma append_assoc (a b c : string) : (a ++ b) ++ c = a ++ (b ++ c).
Proof. induction a as [|x a IH]; simpl; [reflexivity | now rewrite IH]. Qed.

Lemma append_empty_r (a : string) : a ++ "" = a.
Proof. induction a as [|x a IH]; simpl; [reflexivity | now rewrite IH]. Qed.

Lemma length_append (a b : string) :
  String.length (a ++ b) = (String.length a + String.length b)%nat.
Proof. induction a as [|x a IH]; simpl; [reflexivity | now rewrite IH]. Qed.

Lemma contains_refl (s : string) : contains s s.
Proof. exists "", "". simpl. now rewrite append_empty_r. Qed.

Lemma contains_trans (s t u : string) :
  contains s t -> contains t u -> contains s u.
Proof.
  intros (a & b & ->) (c & d & ->).
  exists (a ++ c), (d ++ b). now rewrite !append_assoc.
Qed.

Lemma contains_append_l (a b x : string) : contains a x -> contains (a ++ b) x.
Proof.
  intros (p & q & ->). exists p, (q ++ b). now rewrite !append_assoc.
Qed.

Lemma contains_append_r (a b x : string) : contains b x -> contains (a ++ b) x.
Proof.
  intros (p & q & ->). exists (a ++ p), q. now rewrite !append_assoc.
Qed.

Create HintDb prompt.

#[local] Hint Resolve contains_refl contains_append_l contains_append_r : prompt.

Lemma Builder_String_app (a b : Builder) :
  Builder_String (a ++ b)%list = Builder_String a ++ Builder_String b.
Proof.
  unfold Builder_String. induction a as [|x a IH]; simpl; [reflexivity|].
  now rewrite IH, append_assoc.
Qed.

Lemma Builder_String_In (b : Builder) (x : string) :
  In x b -> contains (Builder_String b) x.
Proof.
  induction b as [|y b IH]; simpl; [easy|].
  intros [-> | H]; auto with prompt.
Qed.

Lemma In_WriteString (b : Builder) (s x : string) :
  In x (WriteString b s) <-> In x b \/ x = s.
Proof.
  unfold WriteString. rewrite in_app_iff. simpl. intuition.
Qed.

(** ** prompt.go *)

(** The loop of [FormatHistory] keeps what was written and writes the
    line of each turn it goes through. *)
Lemma FormatHistory_loop_keeps (rest : list Turn) :
  forall formatted i n x,
    In x formatted -> In x (FormatHistory_loop formatted i n rest).
Proof.
  induction rest as [|turn rest IH]; intros formatted i n x Hx; simpl; [assumption|].
  apply IH. destruct (i <? n - 1)%nat; rewrite ?In_WriteString; auto.
Qed.

Lemma FormatHistory_loop_writes (rest : list Turn) :
  forall formatted i n turn,
    In turn rest ->
    In ("[" ++ ModelName turn ++ "]: " ++ Content turn)
       (FormatHistory_loop formatted i n rest).
Proof.
  induction rest as [|t rest IH]; intros formatted i n turn Hin; [easy|].
  destruct Hin as [-> | Hin]; simpl.
  - apply FormatHistory_loop_keeps.
    destruct (i <? n - 1)%nat; rewrite ?In_WriteString; auto.
  - now apply IH.
Qed.

Lemma FormatHistory_contains (history : list Turn) (turn : Turn) :
  In turn history ->
  contains (FormatHistory history) (Content turn)
  /\ contains (FormatHistory history) (attribution turn).
Proof.
  intros Hin.
  pose proof (Builder_String_In _ _
    (FormatHistory_loop_writes history [] 0 (length history) turn Hin)) as H.
  fold (FormatHistory history) in H. split.
  - eapply contains_trans; [exact H|].
    exists ("[" ++ ModelName turn ++ "]: "), "".
    now rewrite append_empty_r, !append_assoc.
  - eapply contains_trans; [exact H|].
    exists "", (" " ++ Content turn). unfold attribution. simpl.
    now rewrite !append_assoc.
Qed.

(** What [BuildDebatePrompt] writes, in order. *)
Lemma BuildDebatePrompt_builder_eq topic history currentModel isFirstTurn :
  BuildDebatePrompt_builder topic history currentModel isFirstTurn
  = ([topicLine topic; roleLine currentModel]
     ++ (if isFirstTurn
         then [if (length history =? 0)%nat
               then openingInstruction else opposingInstruction]
         else [])
     ++ (if (0 <? length history)%nat
         then [previousDiscussion; FormatHistory history; nl; nextArgumentInstruction]
         else [openingArgumentInstruction]))%list.
Proof.
  unfold BuildDebatePrompt_builder, WriteString.
  destruct isFirstTurn, history; reflexivity.
Qed.

Lemma FormatHistory_loop_app (rest : list Turn) :
  forall formatted i n,
    FormatHistory_loop formatted i n rest
    = (formatted ++ FormatHistory_loop [] i n rest)%list.
Proof.
  induction rest as [|t rest IH]; intros formatted i n; simpl.
  - now rewrite app_nil_r.
  - rewrite IH. symmetry. rewrite IH. unfold WriteString.
    destruct (i <? n - 1)%nat; simpl; now rewrite <- !app_assoc.
Qed.

Lemma FormatHistory_starts (history : list Turn) :
  history <> [] -> exists rest, FormatHistory history = String "[" rest.
Proof.
  destruct history as [|t history]; [easy|]. intros _.
  unfold FormatHistory. simpl FormatHistory_loop.
  rewrite FormatHistory_loop_app.
  rewrite Builder_String_app.
  match goal with |- context [if ?c then _ else _] => destruct c end;
    unfold WriteString; simpl; eexists; reflexivity.
Qed.

(** The instructions differ from every other thing the composer writes. *)
Lemma openingInstruction_not_written topic currentModel :
  openingInstruction <> topicLine topic
  /\ openingInstruction <> roleLine currentModel
  /\ openingInstruction <> opposingInstruction
  /\ openingInstruction <> previousDiscussion
  /\ (forall t h, openingInstruction <> FormatHistory (t :: h))
  /\ openingInstruction <> nl
  /\ openingInstruction <> nextArgumentInstruction
  /\ openingInstruction <> openingArgumentInstruction.
Proof.
  repeat split; try discriminate.
  intros t h E.
  destruct (FormatHistory_starts (t :: h)) as [r Hr]; [discriminate|].
  rewrite Hr in E. discriminate.
Qed.

Lemma opposingInstruction_not_written topic currentModel :
  opposingInstruction <> topicLine topic
  /\ opposingInstruction <> roleLine currentModel
  /\ opposingInstruction <> openingInstruction
  /\ opposingInstruction <> previousDiscussion
  /\ (forall t h, opposingInstruction <> FormatHistory (t :: h))
  /\ opposingInstruction <> nl
  /\ opposingInstruction <> nextArgumentInstruction
  /\ opposingInstruction <> openingArgumentInstruction.
Proof.
  repeat split; try discriminate.
  intros t h E.
  destruct (FormatHistory_starts (t :: h)) as [r Hr]; [discriminate|].
  rewrite Hr in E. discriminate.
Qed.

(** C5. For every topic, transcript, active participant and opening-turn
    flag, the prompt of [BuildDebatePrompt] contains the topic verbatim
    and, for every turn of the transcript, its content and the attribution
    tag [[name]:] of its participant. *)
Theorem prompt_context_complete
  (topic : string) (history : list Turn) (currentModel : string)
  (isFirstTurn : bool) :
  let prompt := BuildDebatePrompt topic history currentModel isFirstTurn in
  contains prompt topic
  /\ forall i turn, nth_error history i = Some turn ->
       contains prompt (Content turn) /\ contains prompt (attribution turn).
Proof.
  intros prompt. subst prompt. unfold BuildDebatePrompt.
  rewrite BuildDebatePrompt_builder_eq. split.
  - eapply contains_trans.
    + apply Builder_String_In. left. reflexivity.
    + exists ("You are participating in a debate on the topic: " ++ dq),
             (dq ++ nl ++ nl).
      unfold topicLine. now rewrite !append_assoc.
  - intros i turn Hi. apply nth_error_In in Hi.
    assert (Hlen : (0 <? length history)%nat = true).
    { destruct history; [destruct Hi | reflexivity]. }
    rewrite Hlen.
    assert (Hfh : contains
              (Builder_String
                 ([topicLine topic; roleLine currentModel]
                  ++ (if isFirstTurn
                      then [if (length history =? 0)%nat
                            then openingInstruction else opposingInstruction]
                      else [])
                  ++ [previousDiscussion; FormatHistory history; nl;
                      nextArgumentInstruction])%list)
              (FormatHistory history)).
    { apply Builder_String_In. rewrite !in_app_iff. right. right.
      simpl. auto. }
    destruct (FormatHistory_contains history turn Hi) as [Hc Ha].
    split; eapply contains_trans; eauto.
Qed.

(** C6, as stated, fails: with the flag unset, the prompt still contains
    the opposing-position instruction when a turn of the transcript
    carries that text. *)
Lemma unset_flag_prompt_contains_instruction :
  let history := [mkTurn "A" opposingInstruction 0%Z] in
  let prompt := BuildDebatePrompt "Tea or coffee?" history "B" false in
  contains prompt opposingInstruction
  /\ ~ (contains prompt opposingInstruction <-> (false = true /\ history <> [])).
Proof.
  intros history prompt.
  assert (H : contains prompt opposingInstruction).
  { exists (topicLine "Tea or coffee?" ++ roleLine "B" ++ previousDiscussion ++ "[A]: "),
           (nl ++ nextArgumentInstruction).
    reflexivity. }
  split; [exact H|].
  intros [Hto _]. destruct (Hto H) as [Hflag _]. discriminate.
Qed.

(** The writes of the composer: it writes the opening-position
    instruction exactly when the opening-turn flag is set and the
    transcript is empty, and the opposing-position instruction exactly when
    the flag is set and the transcript is not empty; with the flag unset it
    writes neither.  Whatever it writes is part of the prompt. *)
Lemma instructions_written_exactly_when
  (topic : string) (history : list Turn) (currentModel : string)
  (isFirstTurn : bool) :
  let written := BuildDebatePrompt_builder topic history currentModel isFirstTurn in
  let prompt := BuildDebatePrompt topic history currentModel isFirstTurn in
  (In openingInstruction written <-> (isFirstTurn = true /\ history = []))
  /\ (In opposingInstruction written <-> (isFirstTurn = true /\ history <> []))
  /\ (forall s, In s written -> contains prompt s).
Proof.
  intros written prompt. subst written prompt.
  unfold BuildDebatePrompt. rewrite BuildDebatePrompt_builder_eq.
  destruct (openingInstruction_not_written topic currentModel)
    as (O1 & O2 & O3 & O4 & O5 & O6 & O7 & O8).
  destruct (opposingInstruction_not_written topic currentModel)
    as (P1 & P2 & P3 & P4 & P5 & P6 & P7 & P8).
  split; [|split].
  - destruct isFirstTurn, history as [|t h]; simpl; split;
      try (intros [? ?]; congruence); try tauto.
    all: try specialize (O5 t h); intuition congruence.
  - destruct isFirstTurn, history as [|t h]; simpl; split;
      try (intros [? ?]; congruence); try tauto.
    all: try (intros _; split; [reflexivity | discriminate]).
    all: try specialize (P5 t h); intuition congruence.
  - intros s. apply Builder_String_In.
Qed.

(** ** ollama.go: the client *)

(** C9. An empty base URL gives the client the default
    [http://localhost:11434]; any other string is kept as it is. *)
Theorem NewOllamaClient_baseURL :
  baseURL (NewOllamaClient "") = "http://localhost:11434"
  /\ forall url, url <> "" -> baseURL (NewOllamaClient url) = url.
Proof.
  split; [reflexivity|].
  intros url Hne. unfold NewOllamaClient. simpl.
  destruct (String.eqb_spec url ""); [contradiction | reflexivity].
Qed.

Lemma NewOllamaClient_baseURL_witness :
  baseURL (NewOllamaClient "http://custom:8080") = "http://custom:8080".
Proof.
  apply (proj2 NewOllamaClient_baseURL). discriminate.
Defined.

Section ClientFacts.

Variable json_Unmarshal : string -> error + GenerateResponseRecord.

(** The loop goes through the lines that [passes] accepts: it hands over
    their chunks and carries on with the next line. *)
Lemma scanLoop_passes (ctx : Context) (bodyErr : option error) (pre : list string) :
  forall i rest sent,
    passes json_Unmarshal ctx i pre = true ->
    scanLoop json_Unmarshal ctx bodyErr i (pre ++ rest)%list sent
    = scanLoop json_Unmarshal ctx bodyErr (i + length pre) rest
        (sent ++ chunksOf json_Unmarshal pre)%list.
Proof.
  induction pre as [|line pre IH]; intros i rest sent Hp.
  - simpl. now rewrite Nat.add_0_r, app_nil_r.
  - simpl in Hp |- *.
    apply andb_prop in Hp as [Hp Hrest]. apply andb_prop in Hp as [Hscan Hline].
    apply negb_true_iff in Hscan. rewrite Hscan.
    replace (i + S (length pre))%nat with (S i + length pre)%nat by lia.
    destruct (String.length line =? 0)%nat; [now apply IH|].
    destruct (json_Unmarshal line) as [err | genResp]; [discriminate|].
    apply andb_prop in Hline as [Hdone Hsend].
    apply negb_true_iff in Hdone. rewrite Hdone.
    destruct (String.eqb (Response genResp) ""); simpl.
    + now apply IH.
    + simpl in Hsend. apply negb_true_iff in Hsend. rewrite Hsend.
      rewrite IH by assumption. now rewrite <- app_assoc.
Qed.

(** A run that reports no error ended on a record with the completion
    flag, or at the end of a body read without error. *)
Lemma scanLoop_success (ctx : Context) (bodyErr : option error) (lines : list string) :
  forall i sent,
    failure (scanLoop json_Unmarshal ctx bodyErr i lines sent) = None ->
    (exists pre line post,
        lines = (pre ++ line :: post)%list
        /\ passes json_Unmarshal ctx i pre = true
        /\ finishes json_Unmarshal ctx (i + length pre) line = true)
    \/ (passes json_Unmarshal ctx i lines = true /\ bodyErr = None).
Proof.
  induction lines as [|line lines IH]; intros i sent H; simpl in H.
  - right. split; [reflexivity|]. destruct bodyErr; [discriminate | reflexivity].
  - destruct (doneAtScan ctx i) eqn:Hscan; [discriminate|].
    assert (Hcont : forall sent',
               failure (scanLoop json_Unmarshal ctx bodyErr (S i) lines sent') = None ->
               passes json_Unmarshal ctx i [line] = true ->
               (exists pre l post,
                   (line :: lines = pre ++ l :: post)%list
                   /\ passes json_Unmarshal ctx i pre = true
                   /\ finishes json_Unmarshal ctx (i + length pre) l = true)
               \/ (passes json_Unmarshal ctx i (line :: lines) = true /\ bodyErr = None)).
    { intros sent' Hs Hone. simpl in Hone. rewrite andb_true_r in Hone.
      destruct (IH _ _ Hs) as [(pre & l & post & -> & Hp & Hd) | [Hp He]].
      - left. exists (line :: pre), l, post. simpl. rewrite Hone, Hp.
        replace (i + S (length pre))%nat with (S i + length pre)%nat by lia.
        auto.
      - right. simpl. now rewrite Hone, Hp. }
    destruct (String.length line =? 0)%nat eqn:Hlen.
    { apply (Hcont _ H). simpl. now rewrite Hscan, Hlen. }
    destruct (json_Unmarshal line) as [err | genResp] eqn:Hjson; [discriminate|].
    destruct (String.eqb (Response genResp) "") eqn:Hresp; simpl in H.
    + destruct (Done genResp) eqn:Hdone.
      * left. exists [], line, lines. repeat split.
        unfold finishes, isDoneRecord. simpl. rewrite Nat.add_0_r.
        now rewrite Hscan, Hlen, Hjson, Hdone, Hresp.
      * apply (Hcont _ H). simpl. now rewrite Hscan, Hlen, Hjson, Hdone, Hresp.
    + destruct (doneAtSend ctx i) eqn:Hsend; [discriminate|].
      destruct (Done genResp) eqn:Hdone.
      * left. exists [], line, lines. repeat split.
        unfold finishes, isDoneRecord. simpl. rewrite Nat.add_0_r.
        now rewrite Hscan, Hlen, Hjson, Hdone, Hresp, Hsend.
      * apply (Hcont _ H). simpl. now rewrite Hscan, Hlen, Hjson, Hdone, Hresp, Hsend.
Qed.

Lemma chunksOf_app (a b : list string) :
  chunksOf json_Unmarshal (a ++ b)%list
  = (chunksOf json_Unmarshal a ++ chunksOf json_Unmarshal b)%list.
Proof.
  induction a as [|line a IH]; simpl; [reflexivity|].
  destruct (String.length line =? 0)%nat; [assumption|].
  destruct (json_Unmarshal line) as [err | genResp]; [assumption|].
  destruct (String.eqb (Response genResp) ""); simpl; now rewrite ?IH.
Qed.

(** C7, amended. A status other than 200 is reported as a failure that
    carries the status code, before any line is read.  Otherwise the client
    reports success exactly when, with no cancellation seen, it reaches a
    record with the completion flag set, or the body ends, read without
    error, before any such record.  At a record with the flag it stops, and
    at a line that does not parse it reports the parse failure: in both
    cases the lines after it play no part. *)
Theorem stream_outcome (ctx : Context) (resp : HTTPResponse) :
  let out := GenerateResponse json_Unmarshal ctx (Responds resp) in
  (StatusCode resp <> StatusOK ->
   out = mkOutcome [] (Some (Errorf_status (StatusCode resp))))
  /\ (StatusCode resp = StatusOK ->
      (failure out = None <->
       ((exists pre line post,
            Body resp = (pre ++ line :: post)%list
            /\ passes json_Unmarshal ctx 0 pre = true
            /\ finishes json_Unmarshal ctx (length pre) line = true)
        \/ (passes json_Unmarshal ctx 0 (Body resp) = true /\ BodyErr resp = None)))
      /\ (forall pre line post,
            Body resp = (pre ++ line :: post)%list ->
            passes json_Unmarshal ctx 0 pre = true ->
            finishes json_Unmarshal ctx (length pre) line = true ->
            out = mkOutcome (chunksOf json_Unmarshal (pre ++ [line])) None)
      /\ (forall pre line post err,
            Body resp = (pre ++ line :: post)%list ->
            passes json_Unmarshal ctx 0 pre = true ->
            doneAtScan ctx (length pre) = false ->
            String.length line <> 0%nat ->
            json_Unmarshal line = inl err ->
            out = mkOutcome (chunksOf json_Unmarshal pre)
                    (Some (Errorf_w "failed to parse response" err)))).
Proof.
  intros out. subst out. unfold GenerateResponse. split.
  - intros Hst. apply Z.eqb_neq in Hst. now rewrite Hst.
  - intros Hst. apply Z.eqb_eq in Hst. rewrite Hst. simpl negb. cbv iota.
    assert (Hdone : forall pre line post,
               Body resp = (pre ++ line :: post)%list ->
               passes json_Unmarshal ctx 0 pre = true ->
               finishes json_Unmarshal ctx (length pre) line = true ->
               scanLoop json_Unmarshal ctx (BodyErr resp) 0 (Body resp) []
               = mkOutcome (chunksOf json_Unmarshal (pre ++ [line])) None).
    { intros pre line post -> Hp Hf.
      rewrite scanLoop_passes by assumption. simpl.
      unfold finishes, isDoneRecord in Hf.
      apply andb_prop in Hf as [Hf Hsend]. apply andb_prop in Hf as [Hscan Hd].
      apply andb_prop in Hd as [Hlen Hd].
      apply negb_true_iff in Hscan, Hlen. rewrite Hscan, chunksOf_app. simpl.
      rewrite Hlen.
      destruct (json_Unmarshal line) as [err | genResp]; [discriminate|].
      rewrite Hd.
      destruct (String.eqb (Response genResp) ""); simpl in *.
      - now rewrite app_nil_r.
      - apply negb_true_iff in Hsend. now rewrite Hsend. }
    split; [|split].
    + split.
      * apply scanLoop_success.
      * intros [(pre & line & post & Hb & Hp & Hd) | [Hp He]].
        -- now rewrite (Hdone pre line post).
        -- rewrite <- (app_nil_r (Body resp)).
           rewrite scanLoop_passes by assumption. simpl. now rewrite He.
    + exact Hdone.
    + intros pre line post err -> Hp Hscan Hlen Hjson.
      rewrite scanLoop_passes by assumption. simpl.
      apply Nat.eqb_neq in Hlen. now rewrite Hscan, Hlen, Hjson.
Qed.

(** C8. A cancellation of the caller's context reaches the goroutine at
    one of four places: the transport sees it before a response comes
    ([httpClient.Do] fails), the check at a record boundary finds the
    context done, the hand-over of a chunk takes the [ctx.Done()] case, or
    the transport sees it while the body is read ([scanner.Err()]).  At
    each of them the run ends with a failure in which [errors.Is] finds
    [context.Canceled], itself or under the [%w] wrapper, and the caller
    has received the chunks of the lines gone through before that place
    only: the line at which the cancellation is seen and the lines after it
    give no chunk.  A status failure, a parse failure and a transport
    failure of another cause are not the cancellation. *)
Theorem cancellation_observed (ctx : Context) (transport : Transport) :
  let out := GenerateResponse json_Unmarshal ctx transport in
  (forall err,
      transport = DoFails err ->
      errors_Is err context_Canceled = true ->
      out = mkOutcome [] (Some (Errorf_w "failed to send request" err))
      /\ exists e, failure out = Some e /\ errors_Is e context_Canceled = true)
  /\ (forall resp pre line post,
        transport = Responds resp ->
        cause ctx = byCancel ->
        StatusCode resp = StatusOK ->
        Body resp = (pre ++ line :: post)%list ->
        passes json_Unmarshal ctx 0 pre = true ->
        let canceled :=
          mkOutcome (chunksOf json_Unmarshal pre) (Some context_Canceled) in
        (doneAtScan ctx (length pre) = true -> out = canceled)
        /\ (forall genResp,
              doneAtScan ctx (length pre) = false ->
              String.length line <> 0%nat ->
              json_Unmarshal line = inr genResp ->
              Response genResp <> "" ->
              doneAtSend ctx (length pre) = true ->
              out = canceled))
  /\ (forall resp err,
        transport = Responds resp ->
        StatusCode resp = StatusOK ->
        passes json_Unmarshal ctx 0 (Body resp) = true ->
        BodyErr resp = Some err ->
        errors_Is err context_Canceled = true ->
        out = mkOutcome (chunksOf json_Unmarshal (Body resp))
                (Some (Errorf_w "error reading response" err))
        /\ exists e, failure out = Some e /\ errors_Is e context_Canceled = true)
  /\ errors_Is context_Canceled context_Canceled = true
  /\ (forall code, errors_Is (Errorf_status code) context_Canceled = false)
  /\ (forall msg, errors_Is (Errorf_w "failed to parse response" (errors_New msg))
                    context_Canceled = false)
  /\ (forall err,
        transport = DoFails err ->
        errors_Is err context_Canceled = false ->
        forall e, failure out = Some e -> errors_Is e context_Canceled = false)
  /\ (forall resp err,
        transport = Responds resp ->
        StatusCode resp = StatusOK ->
        passes json_Unmarshal ctx 0 (Body resp) = true ->
        BodyErr resp = Some err ->
        errors_Is err context_Canceled = false ->
        forall e, failure out = Some e -> errors_Is e context_Canceled = false).
Proof.
  intros out. subst out.
  assert (Hread : forall resp err,
             StatusCode resp = StatusOK ->
             passes json_Unmarshal ctx 0 (Body resp) = true ->
             BodyErr resp = Some err ->
             GenerateResponse json_Unmarshal ctx (Responds resp)
             = mkOutcome (chunksOf json_Unmarshal (Body resp))
                 (Some (Errorf_w "error reading response" err))).
  { intros resp err Hst Hp He. unfold GenerateResponse.
    apply Z.eqb_eq in Hst. rewrite Hst. simpl negb. cbv iota.
    rewrite <- (app_nil_r (Body resp)) at 1.
    rewrite scanLoop_passes by assumption. simpl. now rewrite He. }
  split; [|split; [|split; [|split; [|split; [|split; [|split]]]]]].
  - intros err -> Hc. split; [reflexivity|].
    exists (Errorf_w "failed to send request" err). split; [reflexivity|].
    simpl. now rewrite Hc.
  - intros resp pre line post -> Hcause Hst Hbody Hp canceled. subst canceled.
    unfold GenerateResponse. apply Z.eqb_eq in Hst. rewrite Hst. simpl negb. cbv iota.
    rewrite Hbody, scanLoop_passes by assumption. simpl.
    unfold ctxErr. rewrite Hcause. split.
    + now intros ->.
    + intros genResp -> Hlen Hjson Hresp ->.
      apply Nat.eqb_neq in Hlen. rewrite Hlen, Hjson.
      apply String.eqb_neq in Hresp. now rewrite Hresp.
  - intros resp err -> Hst Hp He Hc. rewrite (Hread resp err) by assumption.
    split; [reflexivity|].
    exists (Errorf_w "error reading response" err). split; [reflexivity|].
    simpl. now rewrite Hc.
  - reflexivity.
  - reflexivity.
  - reflexivity.
  - intros err -> Hc e He. simpl in He. injection He as <-. simpl. now rewrite Hc.
  - intros resp err -> Hst Hp He Hc e Hf. rewrite (Hread resp err) in Hf by assumption.
    simpl in Hf. injection Hf as <-. simpl. now rewrite Hc.
Qed.

End ClientFacts.

(** C7, as stated, fails: a body that ends after a record without the
    completion flag is reported as a success, with no error. *)
Lemma stream_end_without_done_is_success :
  let body := [recordLine "mistral:7b" "Hello" false] in
  let out := GenerateResponse canonicalUnmarshal context_Background
               (Responds (mkResponse 200 body None)) in
  out = mkOutcome ["Hello"] None
  /\ existsb (isDoneRecord canonicalUnmarshal) body = false
  /\ ~ (failure out = None <-> existsb (isDoneRecord canonicalUnmarshal) body = true).
Proof.
  intros body out. repeat split.
  intros [Hto _]. specialize (Hto eq_refl). discriminate.
Qed.

Lemma stream_outcome_witness :
  GenerateResponse canonicalUnmarshal context_Background
    (Responds (mkResponse 200
                 [recordLine "mistral:7b" "Valid" false; "invalid json {{{"] None))
  = mkOutcome ["Valid"]
      (Some (Errorf_w "failed to parse response" (errors_New "invalid character"))).
Proof.
  refine (proj2 (proj2 (proj2
            (stream_outcome canonicalUnmarshal context_Background
               (mkResponse 200
                  [recordLine "mistral:7b" "Valid" false; "invalid json {{{"] None))
            eq_refl))
          [recordLine "mistral:7b" "Valid" false] "invalid json {{{" [] _
          eq_refl eq_refl eq_refl _ eq_refl).
  discriminate.
Defined.

(** The stream of the cancellation test, canceled after the first chunk:
    the transport fails the request, the check after the second line finds
    the context done, or the transport ends the body with the cause. *)
Lemma cancellation_observed_witness :
  (let out := GenerateResponse canonicalUnmarshal context_Background
                (DoFails (Errorf_w "Post" context_Canceled)) in
   out = mkOutcome []
           (Some (Errorf_w "failed to send request"
                    (Errorf_w "Post" context_Canceled)))
   /\ exists e, failure out = Some e /\ errors_Is e context_Canceled = true)
  /\ GenerateResponse canonicalUnmarshal
       (mkContext byCancel (fun i => (1 <=? i)%nat) (fun _ => false))
       (Responds (mkResponse 200
                    [recordLine "mistral:7b" "Start" false;
                     recordLine "mistral:7b" "End" true] None))
     = mkOutcome ["Start"] (Some context_Canceled)
  /\ (let out := GenerateResponse canonicalUnmarshal context_Background
                   (Responds (mkResponse 200
                                [recordLine "mistral:7b" "Start" false]
                                (Some context_Canceled))) in
      out = mkOutcome ["Start"]
              (Some (Errorf_w "error reading response" context_Canceled))
      /\ exists e, failure out = Some e /\ errors_Is e context_Canceled = true).
Proof.
  split; [|split].
  - exact (proj1
             (cancellation_observed canonicalUnmarshal context_Background
                (DoFails (Errorf_w "Post" context_Canceled)))
             (Errorf_w "Post" context_Canceled) eq_refl eq_refl).
  - exact (proj1
             (proj1 (proj2
                (cancellation_observed canonicalUnmarshal
                   (mkContext byCancel (fun i => (1 <=? i)%nat) (fun _ => false))
                   (Responds (mkResponse 200
                                [recordLine "mistral:7b" "Start" false;
                                 recordLine "mistral:7b" "End" true] None))))
                (mkResponse 200
                   [recordLine "mistral:7b" "Start" false;
                    recordLine "mistral:7b" "End" true] None)
                [recordLine "mistral:7b" "Start" false]
                (recordLine "mistral:7b" "End" true) []
                eq_refl eq_refl eq_refl eq_refl eq_refl) eq_refl).
  - exact (proj1 (proj2 (proj2
             (cancellation_observed canonicalUnmarshal context_Background
                (Responds (mkResponse 200
                             [recordLine "mistral:7b" "Start" false]
                             (Some context_Canceled))))))
             (mkResponse 200 [recordLine "mistral:7b" "Start" false]
                (Some context_Canceled))
             context_Canceled eq_refl eq_refl eq_refl eq_refl eq_refl).
Defined.

(** ** [strings.TrimSpace] on blank strings *)

Lemma stripAny_space (t s : string) :
  In t unicodeSpaces -> stripAny unicodeSpaces (t ++ s) = Some s.
Proof.
  unfold unicodeSpaces. simpl In.
  intros H. repeat (destruct H as [<- | H]; [reflexivity|]). destruct H.
Qed.

Lemma space_not_empty (t : string) :
  In t unicodeSpaces -> (1 <= String.length t)%nat.
Proof.
  unfold unicodeSpaces. simpl In.
  intros H. repeat (destruct H as [<- | H]; [simpl; lia|]). destruct H.
Qed.

Lemma trimLeading_blank (s : string) :
  blank s ->
  forall fuel, (String.length s <= fuel)%nat ->
               trimLeading unicodeSpaces fuel s = "".
Proof.
  induction 1 as [|t s Ht Hs IH]; intros fuel Hfuel.
  - destruct fuel; reflexivity.
  - rewrite length_append in Hfuel. pose proof (space_not_empty t Ht).
    destruct fuel as [|fuel]; [lia|].
    cbn [trimLeading]. rewrite stripAny_space by assumption. apply IH. lia.
Qed.

Lemma TrimSpace_blank (s : string) : blank s -> TrimSpace s = "".
Proof.
  intros Hs. unfold TrimSpace, TrimLeft.
  now rewrite trimLeading_blank.
Qed.

(** ** The turn orchestrator ([debateModel] and [Update]) *)

Section OrchestratorFacts.

Context {W : Widgets}.

(** *** The last turn of a history *)

Lemma lastTurn_snoc (h : list Turn) (t : Turn) : lastTurn (h ++ [t]) = Some t.
Proof.
  unfold lastTurn. rewrite length_app. simpl.
  replace (length h + 1 - 1)%nat with (length h) by lia.
  rewrite nth_error_app2, Nat.sub_diag by lia. reflexivity.
Qed.

Lemma lastTurn_nil : lastTurn [] = None.
Proof. reflexivity. Qed.

Lemma setLastTurn_snoc (h : list Turn) (t u : Turn) :
  setLastTurn (h ++ [t]) u = (h ++ [u])%list.
Proof.
  unfold setLastTurn. rewrite length_app. simpl.
  replace (length h + 1 - 1)%nat with (length h) by lia.
  rewrite firstn_app, Nat.sub_diag, firstn_all. simpl. now rewrite app_nil_r.
Qed.

(** A history is empty or ends with its last turn. *)
Lemma history_cases (h : list Turn) :
  h = [] \/ exists h' t, h = (h' ++ [t])%list.
Proof.
  destruct h as [|a h]; [now left | right].
  destruct (@exists_last _ (a :: h)) as (h' & t & E); [discriminate|].
  now exists h', t.
Qed.

Lemma lastTurnIsFrom_snoc (h : list Turn) (t : Turn) (name : string) :
  lastTurnIsFrom (h ++ [t]) name = String.eqb (ModelName t) name.
Proof. unfold lastTurnIsFrom. now rewrite lastTurn_snoc. Qed.

(** *** Alternation *)

Lemma alternates_snoc (h : list Turn) (l t : Turn) :
  alternates ((h ++ [l]) ++ [t])
  = alternates (h ++ [l]) && negb (String.eqb (ModelName l) (ModelName t)).
Proof.
  induction h as [|a h IH].
  - simpl. now rewrite andb_true_r.
  - change (alternates (((a :: h) ++ [l]) ++ [t]))
      with (alternates (a :: ((h ++ [l]) ++ [t]))).
    change (alternates ((a :: h) ++ [l])) with (alternates (a :: (h ++ [l]))).
    destruct h as [|b h]; simpl in *.
    + now rewrite !andb_true_r.
    + rewrite IH. now rewrite andb_assoc.
Qed.

Lemma alternates_replace_last (h : list Turn) (l u : Turn) :
  ModelName u = ModelName l ->
  alternates (h ++ [u]) = alternates (h ++ [l]).
Proof.
  intros E. induction h as [|a h IH]; [reflexivity|].
  destruct h as [|b h]; simpl in *.
  - now rewrite E.
  - now rewrite IH.
Qed.

Lemma alternates_nth (h : list Turn) :
  alternates h = true ->
  forall i t t', nth_error h i = Some t -> nth_error h (S i) = Some t' ->
                 ModelName t <> ModelName t'.
Proof.
  induction h as [|a h IH]; intros Halt i t t' Hi Hi'.
  - destruct i; discriminate.
  - destruct h as [|b h]; [destruct i; discriminate|].
    simpl in Halt. apply andb_prop in Halt as [Hab Hrest].
    destruct i as [|i].
    + simpl in Hi, Hi'. injection Hi as <-. injection Hi' as <-.
      apply negb_true_iff in Hab. now apply String.eqb_neq.
    + apply (IH Hrest i); assumption.
Qed.

Lemma alternates_append (h : list Turn) (name content : string) (ts : Time) :
  alternates h = true ->
  lastTurnIsFrom h name = false ->
  alternates (h ++ [mkTurn name content ts]) = true.
Proof.
  intros Halt Hlast.
  destruct (history_cases h) as [-> | (h' & l & ->)]; [reflexivity|].
  rewrite lastTurnIsFrom_snoc in Hlast.
  rewrite alternates_snoc, Halt. simpl. now rewrite Hlast.
Qed.

Lemma alternates_setLastTurn (h : list Turn) (t : Turn) (content : string) (ts : Time) :
  alternates h = true ->
  lastTurn h = Some t ->
  alternates (setLastTurn h (mkTurn (ModelName t) content ts)) = true.
Proof.
  intros Halt Hlast.
  destruct (history_cases h) as [-> | (h' & l & ->)]; [discriminate|].
  rewrite lastTurn_snoc in Hlast. injection Hlast as ->.
  rewrite setLastTurn_snoc.
  now rewrite (alternates_replace_last h' t).
Qed.

Lemma Forall_setLastTurn (P : Turn -> Prop) (h : list Turn) (u : Turn) :
  Forall P h -> P u -> Forall P (setLastTurn h u).
Proof.
  intros Hh Hu. unfold setLastTurn. apply Forall_app. split.
  - rewrite <- (firstn_skipn (length h - 1) h) in Hh.
    now apply Forall_app in Hh.
  - now constructor.
Qed.

(** *** What [Update] does to the session *)

(** The end of [Update] touches the viewport only. *)
Lemma updateViewport_fst (m : debateModel) (msg : Msg) (cmds : list Cmd) :
  exists vp, fst (updateViewport m msg cmds) = set_viewport m vp.
Proof.
  unfold updateViewport.
  destruct (appState_eqb (state m) stateDebating || appState_eqb (state m) stateStopped).
  - destruct (viewport_Update (viewport m) msg) as [vp cmd]. now exists vp.
  - exists (viewport m). now destruct m.
Qed.

Lemma Update_complete (m : debateModel) (fullResponse : string) (now : Time) :
  let m' := fst (Update m (responseCompleteMsg fullResponse) now) in
  history m' = afterComplete m fullResponse now
  /\ currentTurn m' = (if (currentTurn m =? 0)%Z then 1 else 0)%Z
  /\ model1Name m' = model1Name m /\ model2Name m' = model2Name m
  /\ topic m' = topic m /\ state m' = state m.
Proof.
  unfold Update, afterComplete, lastTurnIsFrom, switchTurn. simpl.
  destruct (history_cases (history m)) as [E | (h' & l & E)]; rewrite E.
  - simpl. destruct (currentTurn m =? 0)%Z; simpl; repeat split.
  - rewrite lastTurn_snoc, length_app. simpl.
    replace (length h' + 1 =? 0)%nat with false
      by (symmetry; apply Nat.eqb_neq; lia).
    simpl. unfold getNextModel. simpl.
    destruct (String.eqb (Content l) fullResponse); simpl;
      [| destruct (String.eqb (ModelName l) _); simpl ];
      destruct (currentTurn m =? 0)%Z; simpl; rewrite ?E; repeat split.
Qed.

Lemma Update_chunk (m : debateModel) (chunk : string) (now : Time) :
  let m' := fst (Update m (responseChunkMsg chunk) now) in
  history m' = afterChunk m chunk now
  /\ currentTurn m' = currentTurn m
  /\ model1Name m' = model1Name m /\ model2Name m' = model2Name m
  /\ topic m' = topic m /\ state m' = state m.
Proof.
  cbv zeta. unfold Update.
  match goal with
  | |- context [updateViewport ?x ?y ?z] =>
      destruct (updateViewport_fst x y z) as [vp ->]; set (m1 := x)
  end.
  assert (H : history m1 = afterChunk m chunk now
              /\ currentTurn m1 = currentTurn m
              /\ model1Name m1 = model1Name m /\ model2Name m1 = model2Name m
              /\ topic m1 = topic m /\ state m1 = state m).
  { subst m1. unfold afterChunk, lastTurnIsFrom.
    destruct (isGenerating m); [|repeat split].
    destruct (lastTurn (history m)) as [t|] eqn:Hl.
    - destruct (String.eqb (ModelName t) (getNextModel m)); repeat split.
    - destruct (history_cases (history m)) as [E | (h' & l & E)].
      + rewrite E. repeat split.
      + rewrite E, lastTurn_snoc in Hl. discriminate. }
  exact H.
Qed.

(** Every other message leaves the history as it is. *)
Lemma Update_history_other (m : debateModel) (msg : Msg) (now : Time) :
  (forall chunk, msg <> responseChunkMsg chunk) ->
  (forall fullResponse, msg <> responseCompleteMsg fullResponse) ->
  history (fst (Update m msg now)) = history m.
Proof.
  intros Hc Hf. destruct msg as [key | w h | chunk | full | err | | tag];
    try (exfalso; eapply Hc; reflexivity);
    try (exfalso; eapply Hf; reflexivity);
    unfold Update, switchTurn;
    repeat match goal with
      | |- context [updateViewport ?x ?y ?z] =>
          destruct (updateViewport_fst x y z) as [? ->]
      | |- context [if ?c then _ else _] => destruct c
      | |- context [let '(_, _) := ?p in _] => destruct p
      end; reflexivity.
Qed.

Lemma Update_names (m : debateModel) (msg : Msg) (now : Time) :
  model1Name (fst (Update m msg now)) = model1Name m
  /\ model2Name (fst (Update m msg now)) = model2Name m.
Proof.
  destruct msg as [key | w h | chunk | full | err | | tag].
  3: { destruct (Update_chunk m chunk now) as (_ & _ & ? & ? & _). now split. }
  3: { destruct (Update_complete m full now) as (_ & _ & ? & ? & _). now split. }
  all: unfold Update, switchTurn;
    repeat match goal with
      | |- context [updateViewport ?x ?y ?z] =>
          destruct (updateViewport_fst x y z) as [? ->]
      | |- context [if ?c then _ else _] => destruct c
      | |- context [let '(_, _) := ?p in _] => destruct p
      end; split; reflexivity.
Qed.

(** [currentTurn] after a message: reset by an accepted topic, toggled by
    a completion and by a failure, kept by everything else. *)
Lemma Update_currentTurn (m : debateModel) (msg : Msg) (now : Time) :
  let m' := fst (Update m msg now) in
  currentTurn m' = currentTurn m
  \/ currentTurn m' = 0%Z
  \/ currentTurn m' = 1%Z.
Proof.
  cbv zeta. destruct msg as [key | w h | chunk | full | err | | tag].
  3: { destruct (Update_chunk m chunk now) as (_ & -> & _). now left. }
  3: { destruct (Update_complete m full now) as (_ & -> & _).
       destruct (currentTurn m =? 0)%Z; auto. }
  all: unfold Update, switchTurn;
    repeat match goal with
      | |- context [updateViewport ?x ?y ?z] =>
          destruct (updateViewport_fst x y z) as [? ->]
      | |- context [if ?c then _ else _] => destruct c
      | |- context [let '(_, _) := ?p in _] => destruct p
      end; simpl; auto.
Qed.

(** *** Invariants of the reachable models *)

Lemma afterComplete_alternates (m : debateModel) (fullResponse : string) (now : Time) :
  alternates (history m) = true ->
  alternates (afterComplete m fullResponse now) = true.
Proof.
  intros Halt. unfold afterComplete.
  destruct (lastTurn (history m)) as [t|] eqn:Hl; [|reflexivity].
  destruct (String.eqb (Content t) fullResponse); [assumption|].
  destruct (String.eqb (ModelName t) (getNextModel m)) eqn:Hn.
  - now apply alternates_setLastTurn.
  - apply alternates_append; [assumption|].
    unfold lastTurnIsFrom. now rewrite Hl.
Qed.

Lemma afterChunk_alternates (m : debateModel) (chunk : string) (now : Time) :
  alternates (history m) = true ->
  alternates (afterChunk m chunk now) = true.
Proof.
  intros Halt. unfold afterChunk.
  destruct (isGenerating m); [|assumption].
  destruct (lastTurn (history m)) as [t|] eqn:Hl; [|reflexivity].
  destruct (String.eqb (ModelName t) (getNextModel m)) eqn:Hn.
  - now apply alternates_setLastTurn.
  - apply alternates_append; [assumption|].
    unfold lastTurnIsFrom. now rewrite Hl.
Qed.

Lemma lastTurn_In (h : list Turn) (t : Turn) : lastTurn h = Some t -> In t h.
Proof. unfold lastTurn. apply nth_error_In. Qed.

Lemma afterComplete_Forall (P : Turn -> Prop) (m : debateModel)
      (fullResponse : string) (now : Time) :
  (forall t c ts, P t -> P (mkTurn (ModelName t) c ts)) ->
  P (mkTurn (getNextModel m) fullResponse now) ->
  Forall P (history m) ->
  Forall P (afterComplete m fullResponse now).
Proof.
  intros Hname Hnew Hh. unfold afterComplete.
  destruct (lastTurn (history m)) as [t|] eqn:Hl; [|now repeat constructor].
  destruct (String.eqb (Content t) fullResponse); [assumption|].
  destruct (String.eqb (ModelName t) (getNextModel m)).
  - apply Forall_setLastTurn; [assumption|]. apply Hname.
    rewrite Forall_forall in Hh. apply Hh. now apply lastTurn_In.
  - apply Forall_app. split; [assumption | now repeat constructor].
Qed.

Lemma afterChunk_Forall (P : Turn -> Prop) (m : debateModel)
      (chunk : string) (now : Time) :
  (forall t c ts, P t -> P (mkTurn (ModelName t) c ts)) ->
  P (mkTurn (getNextModel m) chunk now) ->
  Forall P (history m) ->
  Forall P (afterChunk m chunk now).
Proof.
  intros Hname Hnew Hh. unfold afterChunk.
  destruct (isGenerating m); [|assumption].
  destruct (lastTurn (history m)) as [t|] eqn:Hl; [|now repeat constructor].
  destruct (String.eqb (ModelName t) (getNextModel m)).
  - apply Forall_setLastTurn; [assumption|]. apply Hname.
    rewrite Forall_forall in Hh. apply Hh. now apply lastTurn_In.
  - apply Forall_app. split; [assumption | now repeat constructor].
Qed.

Lemma getNextModel_cases (m : debateModel) :
  getNextModel m = model1Name m \/ getNextModel m = model2Name m.
Proof. unfold getNextModel. destruct (currentTurn m =? 0)%Z; auto. Qed.

Lemma reachable_invariant (model1 model2 : string) (client : OllamaClient)
      (m : debateModel) :
  reachable model1 model2 client m ->
  model1Name m = model1 /\ model2Name m = model2
  /\ (currentTurn m = 0%Z \/ currentTurn m = 1%Z)
  /\ alternates (history m) = true
  /\ Forall (fun t => ModelName t = model1 \/ ModelName t = model2) (history m).
Proof.
  induction 1 as [|m msg now Hr (IH1 & IH2 & IHc & IHa & IHf)].
  - simpl. repeat split; auto.
  - destruct (Update_names m msg now) as [N1 N2].
    assert (Hnext : getNextModel m = model1 \/ getNextModel m = model2).
    { rewrite <- IH1, <- IH2. apply getNextModel_cases. }
    split; [congruence|]. split; [congruence|]. split.
    { destruct (Update_currentTurn m msg now) as [E | [E | E]]; rewrite E; auto. }
    destruct msg as [key | w h | chunk | full | err | | tag];
      try (rewrite Update_history_other by discriminate; now split).
    + destruct (Update_chunk m chunk now) as (-> & _). split.
      * now apply afterChunk_alternates.
      * apply afterChunk_Forall; auto.
    + destruct (Update_complete m full now) as (-> & _). split.
      * now apply afterComplete_alternates.
      * apply afterComplete_Forall; auto.
Qed.

Lemma run_reachable (model1 model2 : string) (client : OllamaClient)
      (msgs : list Msg) :
  forall m now,
    reachable model1 model2 client m ->
    reachable model1 model2 client (run m now msgs).
Proof.
  induction msgs as [|msg msgs IH]; intros m now Hr; simpl; [assumption|].
  apply IH. now constructor.
Qed.

(** *** The claims on the orchestrator *)

(** C1. In every reachable transcript consecutive turns are from
    different participants, and every turn is from one of the two configured
    participants; this covers the runs with failures, where a failure leaves
    the transcript as it is and toggles the active participant. *)
Theorem turns_alternate (model1 model2 : string) (client : OllamaClient)
        (m : debateModel) :
  reachable model1 model2 client m ->
  (forall i t t',
      nth_error (history m) i = Some t ->
      nth_error (history m) (S i) = Some t' ->
      ModelName t <> ModelName t')
  /\ (forall t, In t (history m) -> ModelName t = model1 \/ ModelName t = model2)
  /\ (forall err now,
        let m' := fst (Update m (responseErrorMsg err) now) in
        history m' = history m
        /\ currentTurn m' = currentTurn (switchTurn m)
        /\ reachable model1 model2 client m').
Proof.
  intros Hr. destruct (reachable_invariant _ _ _ _ Hr) as (_ & _ & _ & Ha & Hf).
  split; [|split].
  - now apply alternates_nth.
  - now apply Forall_forall.
  - intros err now m'. subst m'. split; [|split].
    + apply Update_history_other; discriminate.
    + unfold Update, switchTurn. simpl.
      destruct (currentTurn m =? 0)%Z; reflexivity.
    + now constructor.
Qed.

(** C10. On the reachable models the selector is 0 or 1; [switchTurn]
    maps 0 to 1 and 1 to 0 and is an involution; [getNextModel] gives one of
    the two configured names; a completion and a failure apply
    [switchTurn], and an accepted topic resets the selector to 0. *)
Theorem selector_is_binary_toggle (model1 model2 : string) (client : OllamaClient)
        (m : debateModel) :
  reachable model1 model2 client m ->
  (currentTurn m = 0%Z \/ currentTurn m = 1%Z)
  /\ currentTurn (switchTurn m) = (1 - currentTurn m)%Z
  /\ switchTurn (switchTurn m) = m
  /\ (getNextModel m = model1 \/ getNextModel m = model2)
  /\ (forall fullResponse now,
        currentTurn (fst (Update m (responseCompleteMsg fullResponse) now))
        = currentTurn (switchTurn m))
  /\ (forall err now,
        currentTurn (fst (Update m (responseErrorMsg err) now))
        = currentTurn (switchTurn m))
  /\ (forall now,
        state m = stateInput ->
        String.length (TrimSpace (textinput_Value (textInput m))) <> 0%nat ->
        currentTurn (fst (Update m (KeyMsg "enter") now)) = 0%Z).
Proof.
  intros Hr. destruct (reachable_invariant _ _ _ _ Hr) as (N1 & N2 & Hc & _ & _).
  split; [assumption|]. split; [|split; [|split; [|split; [|split]]]].
  - unfold switchTurn. destruct Hc as [-> | ->]; reflexivity.
  - destruct m. simpl in Hc. unfold switchTurn. simpl.
    destruct Hc as [-> | ->]; reflexivity.
  - rewrite <- N1, <- N2. apply getNextModel_cases.
  - intros full now. destruct (Update_complete m full now) as (_ & -> & _).
    unfold switchTurn. destruct (currentTurn m =? 0)%Z; reflexivity.
  - intros err now. unfold Update, switchTurn. simpl.
    destruct (currentTurn m =? 0)%Z; reflexivity.
  - intros now Hst Hlen. unfold Update. simpl. rewrite Hst. simpl.
    apply Nat.eqb_neq in Hlen. now rewrite Hlen.
Qed.

(** C4. A topic that is empty or made of white space only is rejected in
    the input state: [Update] sets the error message and nothing else, so
    the state stays the input state, the transcript stays as it was
    (empty), and no generation is scheduled. *)
Theorem blank_topic_rejected (m : debateModel) (now : Time) :
  state m = stateInput ->
  blank (textinput_Value (textInput m)) ->
  Update m (KeyMsg "enter") now = (set_errorMsg m "Topic cannot be empty", nilCmd)
  /\ (let m' := fst (Update m (KeyMsg "enter") now) in
      state m' = stateInput
      /\ history m' = history m
      /\ (history m = [] -> history m' = [])
      /\ topic m' = topic m
      /\ currentTurn m' = currentTurn m
      /\ isGenerating m' = isGenerating m
      /\ textInput m' = textInput m
      /\ viewport m' = viewport m
      /\ errorMsg m' = "Topic cannot be empty").
Proof.
  intros Hst Hblank.
  assert (E : Update m (KeyMsg "enter") now
              = (set_errorMsg m "Topic cannot be empty", nilCmd)).
  { unfold Update. simpl. rewrite Hst. simpl.
    now rewrite TrimSpace_blank. }
  split; [exact E|]. rewrite E. simpl. repeat split; auto.
Qed.

(** A failure never touches the transcript. *)
Lemma failure_keeps_history (m : debateModel) (err : error) (now : Time) :
  history (fst (Update m (responseErrorMsg err) now)) = history m.
Proof. apply Update_history_other; discriminate. Qed.

(** A completion adds one turn when the transcript is empty, or when its
    last turn is from the other participant with another text. *)
Lemma completion_appends (m : debateModel) (fullResponse : string) (now : Time) :
  (history m = []
   \/ exists t, lastTurn (history m) = Some t
                /\ Content t <> fullResponse
                /\ ModelName t <> getNextModel m) ->
  history (fst (Update m (responseCompleteMsg fullResponse) now))
  = (history m ++ [mkTurn (getNextModel m) fullResponse now])%list.
Proof.
  intros H. destruct (Update_complete m fullResponse now) as (-> & _).
  unfold afterComplete. destruct H as [-> | (t & -> & Hc & Hn)]; [reflexivity|].
  apply String.eqb_neq in Hc, Hn. now rewrite Hc, Hn.
Qed.

(** In the stopped state a topic submission changes neither topic,
    transcript nor state, and a second stop changes nothing. *)
Lemma stopped_submit_and_stop (m : debateModel) (now : Time) :
  state m = stateStopped ->
  (let m' := fst (Update m (KeyMsg "enter") now) in
   topic m' = topic m /\ history m' = history m /\ state m' = stateStopped)
  /\ fst (Update m (KeyMsg "q") now) = m
  /\ fst (Update m (KeyMsg "ctrl+c") now) = m
  /\ (let m' := fst (Update m stopDebateMsg now) in
      topic m' = topic m /\ history m' = history m /\ state m' = stateStopped).
Proof.
  intros Hst. repeat split.
  - unfold Update. simpl. rewrite Hst. simpl.
    destruct (updateViewport_fst m (KeyMsg "enter") []) as [vp ->]. reflexivity.
  - apply Update_history_other; discriminate.
  - unfold Update. simpl. rewrite Hst. simpl.
    destruct (updateViewport_fst m (KeyMsg "enter") []) as [vp ->]. exact Hst.
  - unfold Update. simpl. now rewrite Hst.
  - unfold Update. simpl. now rewrite Hst.
Qed.

End OrchestratorFacts.

(** ** The scenario of the design, run on the code *)

Local Open Scope Z_scope.

Lemma sessionRunning_reachable :
  forall msgs now, reachable "A" "B" (NewOllamaClient "") (run sessionRunning now msgs).
Proof.
  intros msgs now. apply run_reachable. unfold sessionRunning.
  apply run_reachable. constructor.
Qed.

Lemma turns_alternate_witness :
  let m := run sessionRunning 2
             [responseCompleteMsg "Remote work wins.";
              responseErrorMsg (Errorf_status 503);
              responseCompleteMsg "Remote work still wins.";
              responseCompleteMsg "Offices build teams."] in
  history m = [mkTurn "A" "Remote work still wins." 4;
               mkTurn "B" "Offices build teams." 5]
  /\ forall i t t',
       nth_error (history m) i = Some t ->
       nth_error (history m) (S i) = Some t' ->
       ModelName t <> ModelName t'.
Proof.
  intros m. split; [reflexivity|].
  exact (proj1 (turns_alternate "A" "B" (NewOllamaClient "") m
                  (sessionRunning_reachable _ _))).
Defined.

Lemma selector_is_binary_toggle_witness :
  let m := run sessionRunning 2 [responseCompleteMsg "Remote work wins."] in
  currentTurn m = 1%Z /\ switchTurn (switchTurn m) = m.
Proof.
  intros m. split; [reflexivity|].
  exact (proj1 (proj2 (proj2
           (selector_is_binary_toggle "A" "B" (NewOllamaClient "") m
              (sessionRunning_reachable _ _))))).
Defined.

Lemma blank_three_spaces : blank "   ".
Proof.
  change "   " with (" " ++ " " ++ " " ++ "").
  repeat (apply blank_space; [simpl; tauto|]). apply blank_empty.
Defined.

Lemma blank_topic_rejected_witness :
  let m := run sessionStart 0 [KeyMsg " "; KeyMsg " "; KeyMsg " "] in
  textinput_Value (textInput m) = "   "
  /\ Update m (KeyMsg "enter") 3
     = (set_errorMsg m "Topic cannot be empty", nilCmd).
Proof.
  intros m. split; [reflexivity|].
  exact (proj1 (blank_topic_rejected m 3 eq_refl blank_three_spaces)).
Defined.

(** After a failure of [B] the selector is back on [A], whose closed turn
    is then the last of the history: the next completion of [A] rewrites it
    instead of adding a turn. *)
Lemma completion_after_failure_rewrites_turn :
  let m := run sessionRunning 2
             [responseCompleteMsg "Remote work wins.";
              responseErrorMsg (Errorf_status 503)] in
  history m = [mkTurn "A" "Remote work wins." 2]
  /\ getNextModel m = "A"
  /\ errorMsg m = "Error: Ollama API returned status 503"
  /\ history (fst (Update m (responseCompleteMsg "Remote work still wins.") 4))
     = [mkTurn "A" "Remote work still wins." 4].
Proof. intros m. repeat split. Qed.

(** C2 on the code: after the stop key, the completion of the generation
    in flight still adds a turn to the transcript and schedules the next
    generation; so does a chunk, since the stop key leaves [isGenerating]
    set. *)
Lemma completion_after_stop_extends_transcript :
  let m := run sessionRunning 2 [responseCompleteMsg "Remote work wins."; KeyMsg "q"] in
  state m = stateStopped
  /\ history m = [mkTurn "A" "Remote work wins." 2]
  /\ (let r := Update m (responseCompleteMsg "Offices build teams.") 4 in
      state (fst r) = stateStopped
      /\ history (fst r) = [mkTurn "A" "Remote work wins." 2;
                            mkTurn "B" "Offices build teams." 4]
      /\ history (fst r) <> history m
      /\ snd r = generateResponse (fst r))
  /\ (let r := Update m (responseChunkMsg "Offices") 4 in
      history (fst r) = [mkTurn "A" "Remote work wins." 2; mkTurn "B" "Offices" 4]).
Proof.
  intros m. repeat split. discriminate.
Qed.

(** C3 on the code: in the running state, with no turn of the active
    participant open, a completion whose text equals the content of the
    last turn is not recorded: the transcript keeps its one turn. *)
Lemma repeated_text_is_not_recorded :
  let m := run sessionRunning 2 [responseCompleteMsg "Agreed."] in
  state m = stateDebating
  /\ history m = [mkTurn "A" "Agreed." 2]
  /\ getNextModel m = "B"
  /\ lastTurnIsFrom (history m) (getNextModel m) = false
  /\ (let m' := fst (Update m (responseCompleteMsg "Agreed.") 3) in
      state m' = stateDebating
      /\ history m' = history m
      /\ length (history m') = 1%nat
      /\ length (history m') <> (length (history m) + 1)%nat).
Proof.
  intros m. repeat split. discriminate.
Qed.

(* ===================================================================== *)
(** * Further properties of the code *)

(** ** prompt.go *)

Lemma FormatHistory_loop_join (rest : list Turn) :
  forall i n,
    (i + length rest = n)%nat ->
    Builder_String (FormatHistory_loop [] i n rest)
    = String.concat (nl ++ nl) (map turnLine rest).
Proof.
  induction rest as [|t rest IH]; intros i n Hn; [reflexivity|].
  cbn [FormatHistory_loop]. rewrite FormatHistory_loop_app, Builder_String_app.
  rewrite (IH (S i) n) by (simpl in Hn; lia).
  destruct rest as [|u rest].
  - replace (i <? n - 1)%nat with false
      by (symmetry; apply Nat.ltb_ge; simpl in Hn; lia).
    unfold WriteString, turnLine. simpl. now rewrite !append_empty_r.
  - replace (i <? n - 1)%nat with true
      by (symmetry; apply Nat.ltb_lt; simpl in Hn; lia).
    unfold WriteString. cbn [map String.concat app Builder_String fold_right].
    fold (turnLine t). now rewrite append_empty_r, !append_assoc.
Qed.

(** [FormatHistory] joins the lines of the turns, in order, with one blank
    line between two of them and nothing after the last: the empty history
    gives the empty string. *)
Theorem FormatHistory_join (history : list Turn) :
  FormatHistory history = String.concat (nl ++ nl) (map turnLine history).
Proof. unfold FormatHistory. now apply FormatHistory_loop_join. Qed.

Lemma concat_cons (sep x : string) (l : list string) :
  String.concat sep (x :: l)
  = x ++ match l with [] => "" | _ => sep ++ String.concat sep l end.
Proof. destruct l; simpl; [now rewrite append_empty_r | reflexivity]. Qed.

Lemma concat_middle (sep x : string) (l1 l2 : list string) :
  exists pre post, String.concat sep (l1 ++ x :: l2)%list = pre ++ x ++ post
                   /\ (forall y l3 l4, l2 = (l3 ++ y :: l4)%list ->
                                       exists mid post', post = mid ++ y ++ post').
Proof.
  induction l1 as [|a l1 (pre & post & E & H)].
  - exists "", (match l2 with [] => "" | _ => sep ++ String.concat sep l2 end).
    split; [apply concat_cons|].
    intros y l3 l4 ->.
    assert (G : forall l3, exists mid post',
                 String.concat sep (l3 ++ y :: l4)%list = mid ++ y ++ post').
    { clear. induction l3 as [|b l3 (mid & post' & E)].
      - exists "", (match l4 with [] => "" | _ => sep ++ String.concat sep l4 end).
        apply concat_cons.
      - exists (b ++ sep ++ mid), post'.
        change ((b :: l3) ++ y :: l4)%list with (b :: (l3 ++ y :: l4))%list.
        rewrite concat_cons, E. destruct l3; simpl; now rewrite !append_assoc. }
    destruct (G l3) as (mid & post' & E). exists (sep ++ mid), post'.
    rewrite E. destruct l3; simpl; now rewrite !append_assoc.
  - exists (a ++ sep ++ pre), post. split; [|exact H].
    change ((a :: l1) ++ x :: l2)%list with (a :: (l1 ++ x :: l2))%list.
    rewrite concat_cons, E. destruct l1; simpl; now rewrite !append_assoc.
Qed.

(** The prompt keeps the order of the transcript: the line of an earlier
    turn comes before the line of a later one. *)
Theorem prompt_keeps_turn_order
  (topic : string) (h1 h2 h3 : list Turn) (t u : Turn) (currentModel : string)
  (isFirstTurn : bool) :
  exists a b c,
    BuildDebatePrompt topic (h1 ++ t :: h2 ++ u :: h3)%list currentModel isFirstTurn
    = a ++ turnLine t ++ b ++ turnLine u ++ c.
Proof.
  set (history := (h1 ++ t :: h2 ++ u :: h3)%list).
  assert (Hlen : (0 <? length history)%nat = true).
  { subst history. rewrite length_app. simpl. apply Nat.ltb_lt. lia. }
  destruct (concat_middle (nl ++ nl) (turnLine t) (map turnLine h1)
              (map turnLine (h2 ++ u :: h3))) as (pre & post & E & H).
  destruct (H (turnLine u) (map turnLine h2) (map turnLine h3)) as (mid & post' & ->).
  { now rewrite map_app. }
  assert (Hf : FormatHistory history
               = pre ++ turnLine t ++ mid ++ turnLine u ++ post').
  { unfold FormatHistory. rewrite FormatHistory_loop_join by reflexivity. subst history.
    rewrite map_app. simpl map. exact E. }
  unfold BuildDebatePrompt. rewrite BuildDebatePrompt_builder_eq, Hlen.
  rewrite !Builder_String_app.
  set (head := Builder_String [topicLine topic; roleLine currentModel]).
  set (instr := Builder_String _).
  cbn [Builder_String fold_right]. rewrite Hf.
  exists (head ++ instr ++ previousDiscussion ++ pre), mid,
         (post' ++ nl ++ nextArgumentInstruction ++ "").
  now rewrite !append_assoc.
Qed.

(** Every prompt names the participant it is for, with the instruction to
    present arguments, and ends with the instruction that fits the
    transcript: the next argument after a discussion, the opening argument
    without one. *)
Theorem prompt_role_and_closing
  (topic : string) (history : list Turn) (currentModel : string)
  (isFirstTurn : bool) :
  let prompt := BuildDebatePrompt topic history currentModel isFirstTurn in
  contains prompt (roleLine currentModel)
  /\ contains prompt currentModel
  /\ exists body,
      prompt = topicLine topic ++ roleLine currentModel ++ body
                 ++ (if (0 <? length history)%nat
                     then nextArgumentInstruction
                     else openingArgumentInstruction).
Proof.
  intros prompt. subst prompt. unfold BuildDebatePrompt.
  rewrite BuildDebatePrompt_builder_eq.
  assert (Hrole : contains
            (Builder_String
               ([topicLine topic; roleLine currentModel]
                ++ (if isFirstTurn
                    then [if (length history =? 0)%nat
                          then openingInstruction else opposingInstruction]
                    else [])
                ++ (if (0 <? length history)%nat
                    then [previousDiscussion; FormatHistory history; nl;
                          nextArgumentInstruction]
                    else [openingArgumentInstruction]))%list)
            (roleLine currentModel)).
  { apply Builder_String_In. simpl. auto. }
  split; [exact Hrole|]. split.
  - eapply contains_trans; [exact Hrole|].
    exists "You are ",
      (". Your role is to present arguments and respond to your opponent's points."
       ++ nl ++ nl).
    reflexivity.
  - rewrite !Builder_String_app.
    match goal with
    | |- context [Builder_String (if isFirstTurn then ?a else ?b)] =>
        set (instr := Builder_String (if isFirstTurn then a else b))
    end.
    destruct (0 <? length history)%nat; cbn [Builder_String fold_right].
    + exists (instr ++ previousDiscussion ++ FormatHistory history ++ nl).
      now rewrite !append_assoc, ?append_empty_r.
    + exists instr. now rewrite !append_assoc, ?append_empty_r.
Qed.

(** ** ollama.go: the streaming generation *)

Section StreamFacts.

Variable json_Unmarshal : string -> error + GenerateResponseRecord.

Lemma scanLoop_chunks_prefix (ctx : Context) (bodyErr : option error)
      (lines : list string) :
  forall i sent,
  exists n,
    chunks (scanLoop json_Unmarshal ctx bodyErr i lines sent)
    = (sent ++ chunksOf json_Unmarshal (firstn n lines))%list.
Proof.
  induction lines as [|line lines IH]; intros i sent.
  - exists 0%nat. simpl. destruct bodyErr; simpl; now rewrite app_nil_r.
  - assert (Hstop : exists n,
               sent = (sent ++ chunksOf json_Unmarshal (firstn n (line :: lines)))%list).
    { exists 0%nat. simpl. now rewrite app_nil_r. }
    simpl scanLoop.
    destruct (doneAtScan ctx i); [exact Hstop|].
    destruct (String.length line =? 0)%nat eqn:Hlen.
    { destruct (IH (S i) sent) as [n Hn]. exists (S n). simpl. now rewrite Hlen. }
    destruct (json_Unmarshal line) as [err | genResp] eqn:Hjson; [exact Hstop|].
    destruct (String.eqb (Response genResp) "") eqn:Hresp; simpl.
    + destruct (Done genResp).
      * exact Hstop.
      * destruct (IH (S i) sent) as [n Hn]. exists (S n). simpl.
        now rewrite Hlen, Hjson, Hresp.
    + destruct (doneAtSend ctx i); [exact Hstop|].
      destruct (Done genResp).
      * exists 1%nat. simpl. now rewrite Hlen, Hjson, Hresp.
      * destruct (IH (S i) (sent ++ [Response genResp])%list) as [n Hn].
        exists (S n). simpl. rewrite Hlen, Hjson, Hresp, Hn.
        now rewrite <- app_assoc.
Qed.

(** The caller receives the chunks in the order of the stream, none
    skipped and none twice: what it has received when the channels close
    is the chunks of the first [n] lines of the body, for some [n]; without
    a response it has received nothing. *)
Theorem chunks_in_stream_order (ctx : Context) (transport : Transport) :
  match transport with
  | Responds resp =>
      exists n,
        chunks (GenerateResponse json_Unmarshal ctx transport)
        = chunksOf json_Unmarshal (firstn n (Body resp))
  | _ => chunks (GenerateResponse json_Unmarshal ctx transport) = []
  end.
Proof.
  destruct transport as [err | err | resp]; try reflexivity.
  unfold GenerateResponse.
  destruct (negb (StatusCode resp =? StatusOK)%Z).
  - exists 0%nat. reflexivity.
  - destruct (scanLoop_chunks_prefix ctx (BodyErr resp) (Body resp) 0 [])
      as [n Hn].
    exists n. exact Hn.
Qed.

Lemma chunksOf_not_empty (lines : list string) :
  Forall (fun chunk => chunk <> "") (chunksOf json_Unmarshal lines).
Proof.
  induction lines as [|line lines IH]; simpl; [constructor|].
  destruct (String.length line =? 0)%nat; [assumption|].
  destruct (json_Unmarshal line) as [err | genResp]; [assumption|].
  destruct (String.eqb (Response genResp) "") eqn:E; [assumption|].
  constructor; [|assumption]. now apply String.eqb_neq.
Qed.

(** The client never hands over an empty chunk: a record with an empty
    text gives nothing to the caller. *)
Theorem no_empty_chunk (ctx : Context) (transport : Transport) :
  Forall (fun chunk => chunk <> "")
         (chunks (GenerateResponse json_Unmarshal ctx transport)).
Proof.
  destruct transport as [err | err | resp]; try (simpl; constructor).
  unfold GenerateResponse.
  destruct (negb (StatusCode resp =? StatusOK)%Z); [constructor|].
  destruct (scanLoop_chunks_prefix ctx (BodyErr resp) (Body resp) 0 [])
    as [n Hn].
  rewrite Hn. apply chunksOf_not_empty.
Qed.

(** With the context of the program, which is never done, the index of a
    line plays no part. *)
Lemma scanLoop_Background_index (bodyErr : option error) (lines : list string) :
  forall i j sent,
    scanLoop json_Unmarshal context_Background bodyErr i lines sent
    = scanLoop json_Unmarshal context_Background bodyErr j lines sent.
Proof.
  induction lines as [|line lines IH]; intros i j sent; [reflexivity|].
  simpl. destruct (String.length line =? 0)%nat; [apply IH|].
  destruct (json_Unmarshal line) as [err | genResp]; [reflexivity|].
  destruct (negb (String.eqb (Response genResp) "")), (Done genResp);
    try reflexivity; apply IH.
Qed.

(** Empty lines of the body are skipped: with the context of the program,
    the outcome is the one of the body without them. *)
Theorem empty_lines_skipped (status : Z) (body : list string)
        (bodyErr : option error) :
  GenerateResponse json_Unmarshal context_Background
    (Responds (mkResponse status body bodyErr))
  = GenerateResponse json_Unmarshal context_Background
      (Responds (mkResponse status (filter nonEmptyLine body) bodyErr)).
Proof.
  unfold GenerateResponse. simpl.
  destruct (negb (status =? StatusOK)%Z); [reflexivity|].
  generalize 0%nat at 1 2. generalize (@nil string).
  induction body as [|line body IH]; intros sent i; [reflexivity|].
  simpl. unfold nonEmptyLine at 1.
  destruct (String.length line =? 0)%nat eqn:Hlen; simpl.
  - rewrite (scanLoop_Background_index bodyErr body (S i) i). apply IH.
  - rewrite Hlen.
    destruct (json_Unmarshal line) as [err | genResp]; [reflexivity|].
    destruct (negb (String.eqb (Response genResp) "")), (Done genResp);
      try reflexivity;
      rewrite (scanLoop_Background_index bodyErr body (S i) i),
        (scanLoop_Background_index bodyErr (filter nonEmptyLine body) (S i) i);
      apply IH.
Qed.

End StreamFacts.

(** ** ollama.go: the model catalog, and main.go *)

Lemma findModel_In (models : list string) (modelName : string) :
  findModel models modelName = true <-> In modelName models.
Proof.
  induction models as [|model models IH]; simpl; [easy|].
  destruct (String.eqb_spec model modelName) as [-> | Hne].
  - split; auto.
  - rewrite IH. split; [auto | intros [E | H]; [contradiction | exact H]].
Qed.

Lemma ValidateModel_None_iff
  (httpGet : string -> TagsTransport) (c : OllamaClient) (modelName : string) :
  ValidateModel httpGet c modelName = None
  <-> exists names,
        httpGet (baseURL c ++ "/api/tags") = TagsResponds 200 (inr names)
        /\ In modelName names.
Proof.
  unfold ValidateModel, ListModels.
  destruct (httpGet (baseURL c ++ "/api/tags")) as [err | status decoded].
  - split; [discriminate | intros (names & E & _); discriminate].
  - destruct (Z.eqb_spec status StatusOK) as [-> | Hne]; simpl.
    + destruct decoded as [err | names].
      * split; [discriminate | intros (names & E & _); discriminate].
      * destruct (findModel names modelName) eqn:Hf.
        -- split; [|reflexivity]. intros _. exists names. split; [reflexivity|].
           now apply findModel_In.
        -- split; [discriminate|]. intros (names' & E & Hin).
           injection E as <-. apply findModel_In in Hin. congruence.
    + split; [discriminate|]. intros (names & E & _).
      injection E as E _. contradiction.
Qed.

(** [ValidateModel] accepts a model exactly when the catalog answers the
    request to [baseURL/api/tags] with status 200 and a body that decodes
    to a list with that very name in it. *)
Theorem ValidateModel_accepts_iff
  (httpGet : string -> TagsTransport) (c : OllamaClient) (modelName : string) :
  ValidateModel httpGet c modelName = None
  <-> exists names,
        httpGet (baseURL c ++ "/api/tags") = TagsResponds 200 (inr names)
        /\ In modelName names.
Proof. exact (ValidateModel_None_iff httpGet c modelName). Qed.

(** The failures of [ValidateModel] tell the causes apart: the error
    "model ... not found in Ollama" comes exactly when the catalog was read
    and does not have the name; a catalog that cannot be read gives an error
    that wraps the one of [ListModels]: no connection, a status other than
    200 (checked before the body is decoded), or a body that does not
    decode. *)
Theorem ValidateModel_failures
  (httpGet : string -> TagsTransport) (c : OllamaClient) (modelName : string) :
  let tags := httpGet (baseURL c ++ "/api/tags") in
  (ValidateModel httpGet c modelName
   = Some (errors_New ("model '" ++ modelName ++ "' not found in Ollama"))
   <-> exists names, tags = TagsResponds 200 (inr names) /\ ~ In modelName names)
  /\ (forall err, tags = GetFails err ->
        ValidateModel httpGet c modelName
        = Some (Errorf_w "failed to list models"
                  (Errorf_w "failed to connect to Ollama" err)))
  /\ (forall status decoded, tags = TagsResponds status decoded ->
        status <> 200%Z ->
        ValidateModel httpGet c modelName
        = Some (Errorf_w "failed to list models" (Errorf_status status)))
  /\ (forall err, tags = TagsResponds 200 (inl err) ->
        ValidateModel httpGet c modelName
        = Some (Errorf_w "failed to list models"
                  (Errorf_w "failed to parse Ollama response" err))).
Proof.
  intros tags. subst tags. unfold ValidateModel, ListModels.
  destruct (httpGet (baseURL c ++ "/api/tags")) as [err | status decoded].
  - repeat split; try discriminate.
    + intros (names & E & _). discriminate.
    + intros err' E. now injection E as <-.
  - destruct (Z.eqb_spec status StatusOK) as [-> | Hne]; simpl.
    + destruct decoded as [err | names].
      * repeat split; try discriminate.
        -- intros (names & E & _). discriminate.
        -- intros status decoded E Hne. injection E as E _. now symmetry in E.
        -- intros err' E. now injection E as <-.
      * destruct (findModel names modelName) eqn:Hf.
        -- repeat split; try discriminate.
           ++ intros (names' & E & Hnot). injection E as <-.
              apply findModel_In in Hf. contradiction.
           ++ intros status decoded E Hne. injection E as E _. now symmetry in E.
        -- repeat split; try discriminate.
           ++ intros _. exists names. split; [reflexivity|].
              intros Hin. apply findModel_In in Hin. congruence.
           ++ intros status decoded E Hne. injection E as E _. now symmetry in E.
    + repeat split; try discriminate.
      * intros (names & E & _). injection E as E _. contradiction.
      * intros status' decoded' E _. now injection E as <- <-.
      * intros err E. injection E as E _. contradiction.
Qed.

Lemma ValidateModel_failures_witness :
  ValidateModel
    (fun _ => TagsResponds 500 (inr ["mistral:7b"]))
    (NewOllamaClient "") "mistral:7b"
  = Some (Errorf_w "failed to list models" (Errorf_status 500)).
Proof.
  refine (proj1 (proj2 (proj2
            (ValidateModel_failures (fun _ => TagsResponds 500 (inr ["mistral:7b"]))
               (NewOllamaClient "") "mistral:7b")))
          500%Z (inr ["mistral:7b"]) eq_refl _).
  discriminate.
Defined.

Section StartupFacts.

Context {W : Widgets}.

(** [main] starts the program exactly when both models are in the
    catalog, each at its own request to the default URL, and then on the
    initial model: the input state, no topic, no turn, the first participant
    selected.  Otherwise it exits with code 1; when the first model is
    refused the second request is not made. *)
Theorem main_starts_iff
  (model1 model2 : string) (get1 get2 : string -> TagsTransport) :
  let url := "http://localhost:11434/api/tags" in
  (forall initial,
      main model1 model2 get1 get2 = Starts initial
      <-> ((exists names, get1 url = TagsResponds 200 (inr names) /\ In model1 names)
           /\ (exists names, get2 url = TagsResponds 200 (inr names) /\ In model2 names)
           /\ initial = initialModel model1 model2 (NewOllamaClient "")))
  /\ ((exists initial, main model1 model2 get1 get2 = Starts initial)
      \/ (exists stderr, main model1 model2 get1 get2 = Exits 1 stderr))
  /\ (ValidateModel get1 (NewOllamaClient "") model1 <> None ->
      forall get2', main model1 model2 get1 get2' = Exits 1 (unavailable model1)).
Proof.
  intros url.
  pose proof (ValidateModel_None_iff get1 (NewOllamaClient "") model1) as H1.
  pose proof (ValidateModel_None_iff get2 (NewOllamaClient "") model2) as H2.
  change (baseURL (NewOllamaClient "") ++ "/api/tags") with url in H1, H2.
  unfold main.
  destruct (ValidateModel get1 (NewOllamaClient "") model1) as [e1|].
  - split; [|split].
    + intros initial. split; [discriminate|].
      intros (Hm1 & _). apply H1 in Hm1. discriminate.
    + right. eexists. reflexivity.
    + reflexivity.
  - destruct (ValidateModel get2 (NewOllamaClient "") model2) as [e2|].
    + split; [|split].
      * intros initial. split; [discriminate|].
        intros (_ & Hm2 & _). apply H2 in Hm2. discriminate.
      * right. eexists. reflexivity.
      * intros Hne. now contradiction Hne.
    + split; [|split].
      * intros initial. split.
        -- intros E. injection E as <-. repeat split; [now apply H1 | now apply H2].
        -- intros (_ & _ & ->). reflexivity.
      * left. eexists. reflexivity.
      * intros Hne. now contradiction Hne.
Qed.

End StartupFacts.

Lemma main_starts_iff_witness :
  main (W := plainWidgets) "gemma3n:e4b" "gemma3:4b"
    (fun _ => GetFails (errors_New "connection refused"))
    (fun _ => TagsResponds 200 (inr ["gemma3:4b"]))
  = Exits 1 (unavailable "gemma3n:e4b").
Proof.
  refine (proj2 (proj2
            (main_starts_iff (W := plainWidgets) "gemma3n:e4b" "gemma3:4b"
               (fun _ => GetFails (errors_New "connection refused"))
               (fun _ => TagsResponds 200 (inr ["gemma3:4b"])))) _ _).
  discriminate.
Defined.

(** ** [strings.TrimSpace]: what is left when the white space is gone *)

Lemma blank_madeOf (s : string) : blank s <-> madeOf unicodeSpaces s.
Proof.
  split; induction 1; constructor; assumption.
Qed.

Lemma stripPrefix_Some (p s r : string) :
  stripPrefix p s = Some r -> s = p ++ r.
Proof.
  revert s. induction p as [|a p IH]; intros s H; simpl in H.
  - now injection H as ->.
  - destruct s as [|b s]; [discriminate|].
    destruct (Ascii.eqb_spec a b) as [-> | Hne]; [|discriminate].
    simpl. f_equal. now apply IH.
Qed.

Lemma stripPrefix_append (p r : string) : stripPrefix p (p ++ r) = Some r.
Proof.
  induction p as [|a p IH]; simpl; [reflexivity|].
  now rewrite Ascii.eqb_refl.
Qed.

Lemma stripAny_Some (tokens : list string) (s r : string) :
  stripAny tokens s = Some r -> exists t, In t tokens /\ s = t ++ r.
Proof.
  induction tokens as [|t tokens IH]; simpl; [discriminate|].
  destruct (stripPrefix t s) as [rest|] eqn:E.
  - intros H. injection H as ->. exists t. split; [now left|].
    now apply stripPrefix_Some.
  - intros H. destruct (IH H) as (t' & Hin & ->). exists t'. auto.
Qed.

Lemma madeOf_app (tokens : list string) (a b : string) :
  madeOf tokens a -> madeOf tokens b -> madeOf tokens (a ++ b).
Proof.
  induction 1 as [|t s Ht Hs IH]; intros Hb; [exact Hb|].
  rewrite append_assoc. constructor; auto.
Qed.

(** [trimLeading] takes tokens off the front. *)
Lemma trimLeading_split (tokens : list string) (fuel : nat) :
  forall s, exists w, madeOf tokens w /\ s = w ++ trimLeading tokens fuel s.
Proof.
  induction fuel as [|fuel IH]; intros s; simpl.
  - exists "". split; [constructor | reflexivity].
  - destruct (stripAny tokens s) as [rest|] eqn:E.
    + destruct (stripAny_Some _ _ _ E) as (t & Hin & ->).
      destruct (IH rest) as (w & Hw & Hrest).
      exists (t ++ w). split; [now constructor|].
      rewrite append_assoc. now rewrite <- Hrest.
    + exists "". split; [constructor | reflexivity].
Qed.

Lemma revString_acc (s : string) :
  forall acc, revString acc s = revString "" s ++ acc.
Proof.
  induction s as [|c s IH]; intros acc; simpl; [reflexivity|].
  rewrite (IH (String c acc)), (IH (String c "")).
  now rewrite append_assoc.
Qed.

Lemma revString_append (a b : string) :
  revString "" (a ++ b) = revString "" b ++ revString "" a.
Proof.
  induction a as [|c a IH]; simpl; [now rewrite append_empty_r|].
  rewrite revString_acc, IH, (revString_acc a (String c "")).
  now rewrite append_assoc.
Qed.

Lemma revString_involutive (s : string) : revString "" (revString "" s) = s.
Proof.
  induction s as [|c s IH]; [reflexivity|].
  cbn [revString]. rewrite (revString_acc s), revString_append, IH. reflexivity.
Qed.

Lemma madeOf_reversed (tokens : list string) (w : string) :
  madeOf (map (revString "") tokens) w -> madeOf tokens (revString "" w).
Proof.
  induction 1 as [|t s Ht Hs IH]; [constructor|].
  rewrite revString_append. apply madeOf_app; [exact IH|].
  apply in_map_iff in Ht as (u & <- & Hu).
  rewrite revString_involutive, <- (append_empty_r u).
  constructor; [assumption | constructor].
Qed.

(** [TrimSpace s] is [s] without a blank front and a blank end. *)
Lemma TrimSpace_split (s : string) :
  exists front back, s = front ++ TrimSpace s ++ back /\ blank front /\ blank back.
Proof.
  unfold TrimSpace, TrimLeft, TrimRight.
  destruct (trimLeading_split unicodeSpaces (String.length s) s)
    as (front & Hfront & Hs).
  set (r := trimLeading unicodeSpaces (String.length s) s) in *.
  destruct (trimLeading_split (map (revString "") unicodeSpaces)
              (String.length r) (revString "" r)) as (w & Hw & Hr).
  set (x := trimLeading (map (revString "") unicodeSpaces) (String.length r)
              (revString "" r)) in *.
  exists front, (revString "" w). repeat split.
  - rewrite <- revString_append, <- Hr, revString_involutive. exact Hs.
  - now apply blank_madeOf.
  - apply blank_madeOf. now apply madeOf_reversed.
Qed.

(** [TrimSpace] gives the empty string on the blank strings only. *)
Lemma TrimSpace_empty_iff (s : string) : TrimSpace s = "" <-> blank s.
Proof.
  split; [|apply TrimSpace_blank].
  intros E. destruct (TrimSpace_split s) as (front & back & Hs & Hf & Hb).
  rewrite E in Hs. simpl in Hs. rewrite Hs.
  apply blank_madeOf. apply madeOf_app; now apply blank_madeOf.
Qed.

(** ** prompt.go: occurrences of the position instructions in the prompt *)

Lemma append_eq_append (a b c d : string) :
  a ++ b = c ++ d ->
  (exists m, c = a ++ m /\ b = m ++ d) \/ (exists m, a = c ++ m /\ d = m ++ b).
Proof.
  revert c. induction a as [|x a IH]; intros c E; simpl in E.
  - left. exists c. auto.
  - destruct c as [|y c]; simpl in E.
    + right. exists (String x a). auto.
    + injection E as <- E. destruct (IH c E) as [(m & -> & ->) | (m & -> & ->)].
      * left. exists m. auto.
      * right. exists m. auto.
Qed.

(** An occurrence of [k] in [h ++ r] lies in [h], or in [r], or across
    the two. *)
Lemma contains_append_inv (h r k : string) :
  contains (h ++ r) k ->
  contains h k \/ contains r k
  \/ exists x1 x2,
       x1 <> "" /\ x2 <> "" /\ k = x1 ++ x2
       /\ (exists p, h = p ++ x1) /\ (exists q, r = x2 ++ q).
Proof.
  intros (pre & post & E).
  destruct (append_eq_append _ _ _ _ E) as [(m & -> & ->) | (m & -> & E')].
  - right. left. exists m, post. reflexivity.
  - destruct (append_eq_append _ _ _ _ E') as [(m' & -> & ->) | (m' & -> & ->)].
    + left. exists pre, m'. reflexivity.
    + destruct m as [|c m].
      * right. left. exists "", post. reflexivity.
      * destruct m' as [|c' m'].
        -- left. exists pre, "". now rewrite !append_empty_r.
        -- right. right. exists (String c m), (String c' m').
           repeat split; try discriminate.
           ++ now exists pre.
           ++ now exists post.
Qed.

Lemma startsWith_append (p q : string) : startsWith p (p ++ q) = true.
Proof. unfold startsWith. now rewrite stripPrefix_append. Qed.

Lemma occursb_complete (k s : string) : contains s k -> occursb k s = true.
Proof.
  intros (pre & post & ->). induction pre as [|c pre IH].
  - destruct (k ++ post) eqn:E; simpl; rewrite <- ?E, startsWith_append; reflexivity.
  - cbn [append occursb]. rewrite IH. apply orb_true_r.
Qed.

Lemma endsWithb_complete (p x : string) : endsWithb (p ++ x) x = true.
Proof.
  induction p as [|c p IH].
  - destruct x; simpl; rewrite ?Ascii.eqb_refl, ?String.eqb_refl; reflexivity.
  - cbn [append endsWithb]. rewrite IH. apply orb_true_r.
Qed.

Lemma anySplit_complete (P : string -> string -> bool) (a : string) :
  forall x1 b,
    a <> "" -> b <> "" ->
    P (x1 ++ a) b = true ->
    anySplit P x1 (a ++ b) = true.
Proof.
  induction a as [|c a IH]; intros x1 b Ha Hb HP; [contradiction|].
  cbn [append anySplit].
  destruct a as [|c' a].
  - simpl. destruct b as [|d b]; [contradiction|].
    now rewrite HP.
  - change (String c (String c' a)) with (String c "" ++ String c' a) in HP.
    rewrite <- append_assoc in HP.
    rewrite (IH (x1 ++ String c "") b) by (assumption || discriminate).
    cbn [append]. apply orb_true_r.
Qed.

Lemma startsWith_true (p s : string) :
  startsWith p s = true -> exists r, s = p ++ r.
Proof.
  unfold startsWith. destruct (stripPrefix p s) as [r|] eqn:E; [|discriminate].
  intros _. exists r. now apply stripPrefix_Some.
Qed.

Lemma carriesb_complete (k topic currentModel : string) (history : list Turn) :
  carries k topic currentModel history ->
  carriesb k topic currentModel history = true.
Proof.
  unfold carriesb. intros [H | [H | (t & Hin & H)]].
  - now rewrite (occursb_complete _ _ H).
  - rewrite (occursb_complete _ _ H). now rewrite orb_true_r.
  - apply orb_true_iff. right. apply existsb_exists. exists t.
    split; [assumption|].
    destruct H as [H | H]; rewrite (occursb_complete _ _ H);
      [reflexivity | apply orb_true_r].
Qed.

Section Occurrences.

(** [K] is the text looked for, [k] a beginning of it that the texts of
    the caller do not contain. *)
Variables k K : string.

(** After a fixed text that stands apart from [K], an occurrence of [K]
    lies in what follows. *)
Lemma free_after_fixed (f r : string) :
  apartFrom K f = true -> ~ contains r K -> ~ contains (f ++ r) K.
Proof.
  unfold apartFrom. intros Hf Hr Hc.
  apply andb_prop in Hf as [Ho Hv]. apply negb_true_iff in Ho, Hv.
  destruct (contains_append_inv _ _ _ Hc)
    as [H | [H | (x1 & x2 & H1 & H2 & E & (p & ->) & _)]].
  - apply occursb_complete in H. congruence.
  - contradiction.
  - unfold overlapsEnd in Hv. rewrite E in Hv.
    rewrite (anySplit_complete (fun y _ => endsWithb (p ++ x1) y) x1 "" x2) in Hv;
      [discriminate | assumption | assumption |].
    apply endsWithb_complete.
Qed.

Lemma free_fixed (f : string) : occursb K f = false -> ~ contains f K.
Proof. intros Ho Hc. apply occursb_complete in Hc. congruence. Qed.

Hypothesis Hsafe : instructionSafe k K = true.

Lemma instructionSafe_facts :
  startsWith k K = true
  /\ apartFrom K topicLineHead = true
  /\ apartFrom K roleLineHead = true
  /\ apartFrom K roleLineTail = true
  /\ apartFrom K previousDiscussion = true
  /\ apartFrom K "[" = true
  /\ apartFrom K "]: " = true
  /\ apartFrom K nl = true
  /\ occursb K openingArgumentInstruction = false
  /\ occursb K nextArgumentInstruction = false
  /\ overlapsStart k K roleLineHead = false
  /\ overlapsStart k K roleLineTail = false
  /\ overlapsStart k K "]: " = false
  /\ overlapsStart k K nl = false.
Proof.
  pose proof Hsafe as H. unfold instructionSafe in H.
  repeat match goal with
         | G : (_ && _) = true |- _ => apply andb_prop in G; destruct G
         end.
  repeat match goal with H : negb _ = true |- _ => apply negb_true_iff in H end.
  repeat split; assumption.
Qed.

(** After a text of the caller that does not contain [k], followed by a
    fixed text in which [K] cannot continue, an occurrence of [K] lies in
    what follows the text of the caller. *)
Lemma free_after_text (u f q : string) :
  ~ contains u k -> overlapsStart k K f = false ->
  ~ contains (f ++ q) K -> ~ contains (u ++ f ++ q) K.
Proof.
  destruct instructionSafe_facts as (Hk & _).
  destruct (startsWith_true _ _ Hk) as (tail & EK).
  intros Hu Hv Hr Hc.
  destruct (contains_append_inv _ _ _ Hc)
    as [(pre & post & ->) | [H | (x1 & x2 & H1 & H2 & E & (p & ->) & (q' & E'))]].
  - apply Hu. exists pre, (tail ++ post). now rewrite EK, !append_assoc.
  - contradiction.
  - unfold overlapsStart in Hv. rewrite E in Hv.
    rewrite (anySplit_complete
               (fun x1 x2 => negb (startsWith k x1)
                             && (startsWith x2 f || startsWith f x2))
               x1 "" x2) in Hv; [discriminate | assumption | assumption |].
    cbn [append]. apply andb_true_iff. split.
    + apply negb_true_iff. destruct (startsWith k x1) eqn:Es; [|reflexivity].
      destruct (startsWith_true _ _ Es) as (m & ->).
      exfalso. apply Hu. exists p, m. reflexivity.
    + destruct (append_eq_append _ _ _ _ E') as [(m & -> & _) | (m & -> & _)].
      * rewrite (startsWith_append f m). apply orb_true_r.
      * now rewrite (startsWith_append x2 m).
Qed.

(** The block of the transcript and the closing instruction after it. *)
Lemma free_history_block (history : list Turn) :
  history <> [] ->
  (forall t, In t history ->
             ~ contains (ModelName t) k /\ ~ contains (Content t) k) ->
  ~ contains (String.concat (nl ++ nl) (map turnLine history)
              ++ nl ++ nextArgumentInstruction) K.
Proof.
  destruct instructionSafe_facts
    as (_ & _ & _ & _ & _ & Hb1 & Hb2 & Hnl & _ & Hnext & _ & _ & Hs2 & Hsnl).
  assert (Hend : ~ contains (nl ++ nextArgumentInstruction) K).
  { apply free_after_fixed; [assumption | now apply free_fixed]. }
  induction history as [|t history IH]; intros Hne Hfree; [contradiction|].
  destruct (Hfree t (or_introl eq_refl)) as [Hname Hcontent].
  assert (Hrest : forall t', In t' history ->
                    ~ contains (ModelName t') k /\ ~ contains (Content t') k).
  { intros t' Hin. apply Hfree. now right. }
  cbn [map]. rewrite concat_cons.
  destruct history as [|t' history].
  - unfold turnLine. rewrite append_empty_r, !append_assoc.
    apply free_after_fixed; [assumption|].
    apply free_after_text; [assumption | assumption |].
    apply free_after_fixed; [assumption|].
    apply free_after_text; assumption.
  - cbn [map]. cbv iota. unfold turnLine at 1. rewrite !append_assoc.
    apply free_after_fixed; [assumption|].
    apply free_after_text; [assumption | assumption |].
    apply free_after_fixed; [assumption|].
    apply free_after_text; [assumption | assumption |].
    apply free_after_fixed; [assumption|].
    apply free_after_fixed; [assumption|].
    apply (IH (fun E => nil_cons (eq_sym E)) Hrest).
Qed.

(** The prompt around a position instruction [I] that is not written or
    stands apart from [K], with a closing part without [K]. *)
Lemma free_prompt_parts (topic currentModel I closing : string) :
  ~ contains topic k -> ~ contains currentModel k ->
  (I = "" \/ apartFrom K I = true) ->
  ~ contains closing K ->
  ~ contains (topicLineHead ++ topic ++ roleLineHead ++ currentModel
              ++ roleLineTail ++ I ++ closing) K.
Proof.
  destruct instructionSafe_facts
    as (_ & H1 & H2 & H3 & _ & _ & _ & _ & _ & _ & Hs1 & Hs2 & _ & _).
  intros Ht Hm HI Hclosing.
  assert (Hafter : ~ contains (I ++ closing) K).
  { destruct HI as [-> | HI]; [exact Hclosing | now apply free_after_fixed]. }
  apply free_after_fixed; [assumption|].
  apply free_after_text; [assumption | assumption |].
  apply free_after_fixed; [assumption|].
  apply free_after_text; [assumption | assumption |].
  now apply free_after_fixed.
Qed.

(** The part of the prompt after the position instruction. *)
Lemma free_closing (history : list Turn) :
  (forall t, In t history ->
             ~ contains (ModelName t) k /\ ~ contains (Content t) k) ->
  ~ contains (match history with
              | [] => openingArgumentInstruction
              | _ => previousDiscussion ++ FormatHistory history
                     ++ nl ++ nextArgumentInstruction
              end) K.
Proof.
  destruct instructionSafe_facts
    as (_ & _ & _ & _ & Hp & _ & _ & _ & Hopen & _).
  intros Hfree. destruct history as [|t history].
  - now apply free_fixed.
  - apply free_after_fixed; [assumption|].
    rewrite FormatHistory_join. now apply free_history_block.
Qed.

End Occurrences.

(** The prompt as one text: the fixed texts, the topic and the name of
    the participant, the position instruction if one is written, and the
    closing part. *)
Lemma BuildDebatePrompt_parts
  (topic : string) (history : list Turn) (currentModel : string)
  (isFirstTurn : bool) :
  BuildDebatePrompt topic history currentModel isFirstTurn
  = topicLineHead ++ topic ++ roleLineHead ++ currentModel ++ roleLineTail
    ++ (if isFirstTurn
        then match history with
             | [] => openingInstruction
             | _ => opposingInstruction
             end
        else "")
    ++ match history with
       | [] => openingArgumentInstruction
       | _ => previousDiscussion ++ FormatHistory history
              ++ nl ++ nextArgumentInstruction
       end.
Proof.
  unfold BuildDebatePrompt. rewrite BuildDebatePrompt_builder_eq.
  unfold topicLineHead, roleLineHead, roleLineTail, topicLine, roleLine.
  destruct isFirstTurn, history as [|t h]; cbn [length Nat.eqb Nat.ltb Nat.leb app];
    unfold Builder_String; cbn [fold_right];
    rewrite ?append_empty_r, ?append_assoc; reflexivity.
Qed.

Lemma not_carries (k topic currentModel : string) (history : list Turn) :
  ~ carries k topic currentModel history ->
  ~ contains topic k /\ ~ contains currentModel k
  /\ forall t, In t history ->
               ~ contains (ModelName t) k /\ ~ contains (Content t) k.
Proof.
  unfold carries. intros H. repeat split; intros; intro; apply H; eauto 6.
Qed.

(** Each position instruction is its sentence and a blank line. *)
Lemma instruction_sentences :
  openingInstruction = openingSentence ++ nl ++ nl
  /\ opposingInstruction = opposingSentence ++ nl ++ nl.
Proof. split; reflexivity. Qed.

Lemma openingInstruction_safe :
  instructionSafe openingSentence openingInstruction = true.
Proof. vm_compute. reflexivity. Qed.

Lemma opposingInstruction_safe :
  instructionSafe opposingSentence opposingInstruction = true.
Proof. vm_compute. reflexivity. Qed.

Lemma instructions_apart :
  apartFrom openingInstruction opposingInstruction = true
  /\ apartFrom opposingInstruction openingInstruction = true.
Proof. vm_compute. split; reflexivity. Qed.

(** When no text of the caller contains the sentence of the opening
    instruction, the prompt contains the instruction exactly when it is
    written. *)
Lemma prompt_contains_opening_iff
  (topic : string) (history : list Turn) (currentModel : string)
  (isFirstTurn : bool) :
  ~ carries openingSentence topic currentModel history ->
  (contains (BuildDebatePrompt topic history currentModel isFirstTurn)
     openingInstruction
   <-> isFirstTurn = true /\ history = []).
Proof.
  intros Hfree. apply not_carries in Hfree as (Ht & Hm & Hh).
  split.
  - intros Hc. rewrite BuildDebatePrompt_parts in Hc.
    destruct isFirstTurn, history as [|t h]; [tauto| | |]; exfalso; revert Hc;
      apply (free_prompt_parts openingSentence openingInstruction
               openingInstruction_safe);
      try assumption;
      try exact (free_closing openingSentence openingInstruction
                   openingInstruction_safe _ Hh);
      try (now left).
    right. apply instructions_apart.
  - intros [-> ->]. unfold BuildDebatePrompt.
    apply Builder_String_In. rewrite BuildDebatePrompt_builder_eq.
    simpl. auto.
Qed.

(** The same for the opposing instruction. *)
Lemma prompt_contains_opposing_iff
  (topic : string) (history : list Turn) (currentModel : string)
  (isFirstTurn : bool) :
  ~ carries opposingSentence topic currentModel history ->
  (contains (BuildDebatePrompt topic history currentModel isFirstTurn)
     opposingInstruction
   <-> isFirstTurn = true /\ history <> []).
Proof.
  intros Hfree. apply not_carries in Hfree as (Ht & Hm & Hh).
  split.
  - intros Hc. rewrite BuildDebatePrompt_parts in Hc.
    destruct isFirstTurn, history as [|t h];
      [| split; [reflexivity | discriminate] | |]; exfalso; revert Hc;
      apply (free_prompt_parts opposingSentence opposingInstruction
               opposingInstruction_safe);
      try assumption;
      try exact (free_closing opposingSentence opposingInstruction
                   opposingInstruction_safe _ Hh);
      try (now left).
    right. apply instructions_apart.
  - intros [-> Hne]. unfold BuildDebatePrompt.
    apply Builder_String_In. rewrite BuildDebatePrompt_builder_eq.
    destruct history as [|t h]; [contradiction|]. simpl. auto.
Qed.

(** C6, amended. For every input none of whose texts (the topic, the name
    of the participant, the names and the contents of the turns) contains
    the sentence of the opening-position instruction, the prompt contains
    that instruction exactly when the opening-turn flag is set and the
    transcript is empty; for every input none of whose texts contains the
    sentence of the opposing-position instruction, the prompt contains that
    instruction exactly when the flag is set and the transcript is not
    empty; and with the flag unset, for an input whose texts contain
    neither sentence, neither instruction appears in the prompt. *)
Theorem instructions_in_prompt_exactly_when
  (topic : string) (history : list Turn) (currentModel : string)
  (isFirstTurn : bool) :
  let prompt := BuildDebatePrompt topic history currentModel isFirstTurn in
  (~ carries openingSentence topic currentModel history ->
   (contains prompt openingInstruction
    <-> isFirstTurn = true /\ history = []))
  /\ (~ carries opposingSentence topic currentModel history ->
      (contains prompt opposingInstruction
       <-> isFirstTurn = true /\ history <> []))
  /\ (~ carries openingSentence topic currentModel history ->
      ~ carries opposingSentence topic currentModel history ->
      isFirstTurn = false ->
      ~ contains prompt openingInstruction
      /\ ~ contains prompt opposingInstruction).
Proof.
  intros prompt. subst prompt. split; [|split].
  - apply prompt_contains_opening_iff.
  - apply prompt_contains_opposing_iff.
  - intros H1 H2 ->. split; intros Hc.
    + apply (prompt_contains_opening_iff _ _ _ _ H1) in Hc as [Hc _]. discriminate.
    + apply (prompt_contains_opposing_iff _ _ _ _ H2) in Hc as [Hc _]. discriminate.
Qed.

(** The second participant's first turn, called with the opening-turn
    flag set. *)
Lemma instructions_in_prompt_exactly_when_witness :
  let history := [mkTurn "A" "Tea, of course." 0%Z] in
  let prompt := BuildDebatePrompt "Tea or coffee?" history "B" true in
  ~ carries openingSentence "Tea or coffee?" "B" history
  /\ ~ carries opposingSentence "Tea or coffee?" "B" history
  /\ (contains prompt openingInstruction <-> true = true /\ history = [])
  /\ (contains prompt opposingInstruction <-> true = true /\ history <> []).
Proof.
  intros history prompt.
  assert (H1 : ~ carries openingSentence "Tea or coffee?" "B" history).
  { intros H. apply carriesb_complete in H. vm_compute in H. discriminate. }
  assert (H2 : ~ carries opposingSentence "Tea or coffee?" "B" history).
  { intros H. apply carriesb_complete in H. vm_compute in H. discriminate. }
  split; [exact H1|]. split; [exact H2|]. split.
  - exact (proj1 (instructions_in_prompt_exactly_when
                    "Tea or coffee?" history "B" true) H1).
  - exact (proj1 (proj2 (instructions_in_prompt_exactly_when
                           "Tea or coffee?" history "B" true)) H2).
Defined.

(** The hypothesis is on the sentence, not on the instruction with its
    blank line: a turn that ends with the sentence is followed by the blank
    line between two turns, and the prompt then contains the instruction
    though no text of the caller does. *)
Lemma sentence_before_blank_line_reads_as_instruction :
  let history := [mkTurn "A" opposingSentence 0%Z; mkTurn "B" "No." 1%Z] in
  let prompt := BuildDebatePrompt "Tea or coffee?" history "A" false in
  ~ carries opposingInstruction "Tea or coffee?" "A" history
  /\ contains prompt opposingInstruction.
Proof.
  intros history prompt. split.
  { intros H. apply carriesb_complete in H. vm_compute in H. discriminate. }
  exists (topicLine "Tea or coffee?" ++ roleLine "A" ++ previousDiscussion ++ "[A]: "),
         ("[B]: No." ++ nl ++ nextArgumentInstruction).
  reflexivity.
Qed.

(** ** The turn orchestrator: submissions, stops and the transcript *)

Section SessionFacts.

Context {W : Widgets}.

(** In the input state the enter key starts the debate exactly when the
    value of the text input is not blank.  The topic is then the value as
    typed (not trimmed), the first participant is selected, the error
    message is cleared, the transcript is left as it is, and the generation
    is scheduled for the first participant with the prompt of the topic. *)
Theorem topic_accepted_iff_not_blank (m : debateModel) (now : Time) :
  state m = stateInput ->
  let value := textinput_Value (textInput m) in
  let r := Update m (KeyMsg "enter") now in
  (state (fst r) = stateDebating <-> ~ blank value)
  /\ (~ blank value ->
      topic (fst r) = value
      /\ currentTurn (fst r) = 0%Z
      /\ isGenerating (fst r) = true
      /\ errorMsg (fst r) = ""
      /\ history (fst r) = history m
      /\ snd r = generateResponseCmd (ollamaClient m) (model1Name m)
                   (BuildDebatePrompt value (history m) (model1Name m)
                      (length (history m) =? 0)%nat)).
Proof.
  intros Hst value r. subst r. unfold Update. simpl. rewrite Hst. simpl.
  fold value.
  destruct (String.length (TrimSpace value) =? 0)%nat eqn:Hlen.
  - apply Nat.eqb_eq in Hlen.
    assert (Hb : blank value).
    { apply TrimSpace_empty_iff. destruct (TrimSpace value); [reflexivity | discriminate]. }
    simpl. rewrite Hst. split; [|intros Hn; contradiction].
    split; [discriminate | intros Hn; contradiction].
  - apply Nat.eqb_neq in Hlen.
    assert (Hn : ~ blank value).
    { intros Hb. apply TrimSpace_blank in Hb. rewrite Hb in Hlen. now apply Hlen. }
    simpl. split; [tauto|]. intros _. repeat split.
Qed.

Lemma Update_history_shape (m : debateModel) (msg : Msg) (now : Time) :
  let h := history m in
  let h' := history (fst (Update m msg now)) in
  h' = h
  \/ (exists t, h' = (h ++ [t])%list)
  \/ (exists h0 t t',
         h = (h0 ++ [t])%list /\ h' = (h0 ++ [t'])%list
         /\ ModelName t' = ModelName t).
Proof.
  cbv zeta.
  destruct msg as [key | w hh | chunk | full | err | | tag];
    try (left; apply Update_history_other; discriminate).
  - destruct (Update_chunk m chunk now) as (-> & _). unfold afterChunk.
    destruct (isGenerating m); [|now left].
    destruct (history_cases (history m)) as [E | (h0 & l & E)]; rewrite E.
    + right. left. exists (mkTurn (getNextModel m) chunk now). reflexivity.
    + rewrite lastTurn_snoc.
      destruct (String.eqb (ModelName l) (getNextModel m)).
      * right. right. rewrite setLastTurn_snoc.
        exists h0, l, (mkTurn (ModelName l) (Content l ++ chunk) (Timestamp l)).
        repeat split.
      * right. left. eexists. reflexivity.
  - destruct (Update_complete m full now) as (-> & _). unfold afterComplete.
    destruct (history_cases (history m)) as [E | (h0 & l & E)]; rewrite E.
    + right. left. exists (mkTurn (getNextModel m) full now). reflexivity.
    + rewrite lastTurn_snoc.
      destruct (String.eqb (Content l) full); [now left|].
      destruct (String.eqb (ModelName l) (getNextModel m)).
      * right. right. rewrite setLastTurn_snoc.
        exists h0, l, (mkTurn (ModelName l) full now). repeat split.
      * right. left. eexists. reflexivity.
Qed.

(** No message takes a turn away or touches any turn but the last: the
    transcript after [Update] is the one before, or that one with a turn
    added at the end, or that one with its last turn rewritten for the same
    participant. *)
Theorem history_changes_at_the_end (m : debateModel) (msg : Msg) (now : Time) :
  let h := history m in
  let h' := history (fst (Update m msg now)) in
  h' = h
  \/ (exists t, h' = (h ++ [t])%list)
  \/ (exists h0 t t',
         h = (h0 ++ [t])%list /\ h' = (h0 ++ [t'])%list
         /\ ModelName t' = ModelName t).
Proof. exact (Update_history_shape m msg now). Qed.

Lemma Update_state_shape (m : debateModel) (msg : Msg) (now : Time) :
  let s := state m in
  let s' := state (fst (Update m msg now)) in
  s' = s
  \/ (s = stateInput /\ s' = stateDebating /\ msg = KeyMsg "enter")
  \/ (s = stateDebating /\ s' = stateStopped
      /\ (msg = KeyMsg "q" \/ msg = KeyMsg "ctrl+c"))
  \/ (s' = stateStopped /\ msg = stopDebateMsg).
Proof.
  cbv zeta.
  destruct msg as [key | w hh | chunk | full | err | | tag].
  3: { destruct (Update_chunk m chunk now) as (_ & _ & _ & _ & _ & ->). now left. }
  3: { destruct (Update_complete m full now) as (_ & _ & _ & _ & _ & ->). now left. }
  all: unfold Update, switchTurn.
  - destruct (String.eqb_spec key "ctrl+c") as [-> | Hc]; simpl.
    { destruct (state m) eqn:Hs; simpl; rewrite ?Hs; auto.
      right. right. left. auto. }
    destruct (String.eqb_spec key "q") as [-> | Hq]; simpl.
    { destruct (state m) eqn:Hs; simpl; rewrite ?Hs; auto.
      right. right. left. auto. }
    destruct (String.eqb_spec key "enter") as [-> | He]; simpl.
    + destruct (state m) eqn:Hs; simpl.
      * destruct (String.length _ =? 0)%nat; simpl; rewrite ?Hs; auto.
      * destruct (updateViewport_fst m (KeyMsg "enter") []) as [vp ->]. now left.
      * destruct (updateViewport_fst m (KeyMsg "enter") []) as [vp ->]. now left.
      * destruct (updateViewport_fst m (KeyMsg "enter") []) as [vp ->]. now left.
    + destruct (appState_eqb (state m) stateInput).
      * destruct (textinput_Update (textInput m) (KeyMsg key)) as [ti cmd].
        match goal with
        | |- context [updateViewport ?x ?y ?z] =>
            destruct (updateViewport_fst x y z) as [vp ->]
        end. now left.
      * destruct (updateViewport_fst m (KeyMsg key) []) as [vp ->]. now left.
  - match goal with
    | |- context [updateViewport ?x ?y ?z] =>
        destruct (updateViewport_fst x y z) as [vp ->]
    end. left. simpl.
    destruct (appState_eqb (state m) stateDebating || appState_eqb (state m) stateStopped);
      reflexivity.
  - left. simpl. destruct (currentTurn m =? 0)%Z; reflexivity.
  - right. right. right. auto.
  - destruct (updateViewport_fst m (otherMsg tag) []) as [vp ->]. now left.
Qed.

(** The state changes in three ways only: from the input state to the
    debate by the enter key, from the debate to the stopped state by a stop
    key, and to the stopped state by [stopDebateMsg].  So the stopped state is
    never left, the input state is never entered again, and no message leads
    to the error state. *)
Theorem state_transitions (m : debateModel) (msg : Msg) (now : Time) :
  let s := state m in
  let s' := state (fst (Update m msg now)) in
  s' = s
  \/ (s = stateInput /\ s' = stateDebating /\ msg = KeyMsg "enter")
  \/ (s = stateDebating /\ s' = stateStopped
      /\ (msg = KeyMsg "q" \/ msg = KeyMsg "ctrl+c"))
  \/ (s' = stateStopped /\ msg = stopDebateMsg).
Proof. exact (Update_state_shape m msg now). Qed.

Ltac Update_cases :=
  unfold Update, switchTurn;
  repeat match goal with
    | |- context [updateViewport ?x ?y ?z] =>
        destruct (updateViewport_fst x y z) as [? ->]
    | |- context [if ?c then _ else _] => destruct c eqn:?
    | |- context [let '(_, _) := ?p in _] => destruct p
    | |- context [match lastTurn ?h with _ => _ end] => destruct (lastTurn h)
    end;
  simpl in *.

(** What every message keeps of the session: the topic changes only when
    the enter key leaves the input state, and the generation flag is cleared
    by [stopDebateMsg] only. *)
Lemma Update_topic_flag (m : debateModel) (msg : Msg) (now : Time) :
  let m' := fst (Update m msg now) in
  (topic m' = topic m \/ (state m = stateInput /\ state m' = stateDebating))
  /\ (isGenerating m' = isGenerating m \/ isGenerating m' = true
      \/ state m' = stateStopped).
Proof.
  cbv zeta. destruct msg as [key | w hh | chunk | full | err | | tag];
    Update_cases; auto.
  all: match goal with
       | H : (_ && appState_eqb (state ?x) stateInput) = true |- _ =>
           apply andb_prop in H as [_ H];
           destruct (state x); try discriminate; auto
       end.
Qed.

(** On the models the program goes through: the error state never occurs,
    the topic is empty as long as the input state lasts, and the generation
    flag is set in the debate, so that a chunk is never ignored there. *)
Theorem reachable_states (model1 model2 : string) (client : OllamaClient)
        (m : debateModel) :
  reachable model1 model2 client m ->
  state m <> stateError
  /\ (state m = stateInput -> topic m = "")
  /\ (state m = stateDebating -> isGenerating m = true).
Proof.
  induction 1 as [|m msg now Hr (IHe & IHt & IHg)].
  - simpl. repeat split; [discriminate | discriminate].
  - destruct (Update_topic_flag m msg now) as [Ht Hg].
    pose proof (Update_state_shape m msg now) as Hs. cbv zeta in Hs, Ht, Hg.
    set (m' := fst (Update m msg now)) in *.
    split; [|split].
    + destruct Hs as [E | [(_ & E & _) | [(_ & E & _) | (E & _)]]];
        rewrite E; try discriminate. exact IHe.
    + intros Hin.
      destruct Hs as [E | [(_ & E & _) | [(_ & E & _) | (E & _)]]];
        try congruence.
      destruct Ht as [Et | (_ & Ed)]; [|congruence].
      rewrite Et. apply IHt. congruence.
    + intros Hd.
      destruct Hg as [Eg | [Eg | Eg]]; [|assumption|congruence].
      rewrite Eg.
      destruct Hs as [E | [(Hi & _ & ->) | [(_ & E & _) | (E & _)]]];
        try congruence.
      * apply IHg. congruence.
      * subst m'. revert Eg Hd. unfold Update. simpl. rewrite Hi. simpl.
        destruct (String.length _ =? 0)%nat; simpl; [congruence|].
        intros E _. symmetry. exact E.
Qed.

(** Once the input state is left the topic is fixed: whatever messages
    come, the topic stays the one of the submission and the input state does
    not come back. *)
Theorem topic_fixed_once_started (msgs : list Msg) :
  forall (m : debateModel) (now : Time),
    state m <> stateInput ->
    topic (run m now msgs) = topic m /\ state (run m now msgs) <> stateInput.
Proof.
  induction msgs as [|msg msgs IH]; intros m now Hs; simpl; [now split|].
  destruct (Update_topic_flag m msg now) as [[Et | (Hi & _)] _]; [|contradiction].
  pose proof (Update_state_shape m msg now) as Ht. cbv zeta in Ht.
  assert (Hs' : state (fst (Update m msg now)) <> stateInput).
  { destruct Ht as [E | [(Hi & _) | [(_ & E & _) | (E & _)]]];
      try contradiction; rewrite E; try discriminate. exact Hs. }
  destruct (IH _ (now + 1)%Z Hs') as [E1 E2]. split; [congruence | exact E2].
Qed.

(** The error message is replaced by a failure and cleared or replaced by
    the enter key in the input state, and by nothing else: a completion
    leaves the message of an earlier failure in place. *)
Theorem errorMsg_changes (m : debateModel) (msg : Msg) (now : Time) :
  let m' := fst (Update m msg now) in
  (errorMsg m' = errorMsg m
   \/ (exists err, msg = responseErrorMsg err /\ errorMsg m' = "Error: " ++ Error err)
   \/ (msg = KeyMsg "enter" /\ state m = stateInput))
  /\ (forall fullResponse, msg = responseCompleteMsg fullResponse ->
        errorMsg m' = errorMsg m).
Proof.
  cbv zeta. split.
  - destruct msg as [key | w hh | chunk | full | err | | tag].
    5: { right. left. exists err. split; [reflexivity|].
         unfold Update, switchTurn. simpl.
         destruct (currentTurn m =? 0)%Z; reflexivity. }
    1: { destruct (String.eqb_spec key "enter") as [-> | Hne].
         - destruct (state m) eqn:Hs; [right; right; now split | | | ];
             left; unfold Update; simpl; rewrite Hs; simpl;
             try (destruct (updateViewport_fst m (KeyMsg "enter") []) as [vp ->];
                  reflexivity).
         - left. unfold Update. rewrite (proj2 (String.eqb_neq key "enter") Hne).
           simpl. Update_cases; reflexivity. }
    all: left; Update_cases; reflexivity.
  - intros full ->. Update_cases; reflexivity.
Qed.

(** The three ways to stop: the keys [q] and [ctrl+c], and [stopDebateMsg].
    Each ends the program, keeps the transcript, the topic and the selector,
    turns a running debate into a stopped one, and changes nothing more when
    it comes a second time. *)
Theorem stop_keeps_session (m : debateModel) (stop : Msg) (now now' : Time) :
  stop = KeyMsg "q" \/ stop = KeyMsg "ctrl+c" \/ stop = stopDebateMsg ->
  let r := Update m stop now in
  snd r = tea_Quit
  /\ history (fst r) = history m
  /\ topic (fst r) = topic m
  /\ currentTurn (fst r) = currentTurn m
  /\ (state m = stateDebating -> state (fst r) = stateStopped)
  /\ fst (Update (fst r) stop now') = fst r.
Proof.
  intros [-> | [-> | ->]]; cbv zeta; unfold Update; simpl;
    destruct (state m) eqn:Hs; simpl; rewrite ?Hs; simpl;
    repeat split; try discriminate.
Qed.

(** *** Chunks *)

Lemma Update_chunk_flag (m : debateModel) (chunk : string) (now : Time) :
  isGenerating (fst (Update m (responseChunkMsg chunk) now)) = isGenerating m.
Proof. Update_cases; congruence. Qed.

Lemma getNextModel_after_chunk (m : debateModel) (chunk : string) (now : Time) :
  getNextModel (fst (Update m (responseChunkMsg chunk) now)) = getNextModel m.
Proof.
  destruct (Update_chunk m chunk now) as (_ & Hc & H1 & H2 & _).
  unfold getNextModel. now rewrite Hc, H1, H2.
Qed.

(** Further chunks go to the turn the first chunk opened. *)
Lemma chunks_extend_open_turn (cs : list string) :
  forall (m : debateModel) (now : Time) (h0 : list Turn) (t : Turn),
    isGenerating m = true ->
    history m = (h0 ++ [t])%list ->
    ModelName t = getNextModel m ->
    let m' := run m now (map responseChunkMsg cs) in
    history m'
    = (h0 ++ [mkTurn (ModelName t) (Content t ++ Builder_String cs) (Timestamp t)])%list
    /\ isGenerating m' = true
    /\ getNextModel m' = getNextModel m
    /\ currentTurn m' = currentTurn m
    /\ state m' = state m.
Proof.
  induction cs as [|c cs IH]; intros m now h0 t Hg Hh Hn; cbv zeta.
  - simpl. rewrite append_empty_r, Hh. destruct t. repeat split; auto.
  - cbn [map run].
    destruct (Update_chunk m c now) as (Hh' & Hc & _ & _ & _ & Hs).
    pose proof (Update_chunk_flag m c now) as Hg'.
    pose proof (getNextModel_after_chunk m c now) as Hn'.
    set (m1 := fst (Update m (responseChunkMsg c) now)) in *.
    assert (Hh1 : history m1
                  = (h0 ++ [mkTurn (ModelName t) (Content t ++ c) (Timestamp t)])%list).
    { rewrite Hh'. unfold afterChunk.
      rewrite Hg, Hh, lastTurn_snoc, Hn, String.eqb_refl, setLastTurn_snoc, <- Hn.
      reflexivity. }
    destruct (IH m1 (now + 1)%Z h0 _ (eq_trans Hg' Hg) Hh1
                (eq_trans Hn (eq_sym Hn'))) as (E1 & E2 & E3 & E4 & E5).
    cbn [ModelName Content Timestamp] in E1.
    repeat split; try congruence.
    rewrite E1. cbn [Builder_String fold_right].
    now rewrite append_assoc.
Qed.

(** The chunks of one generation build one turn: when no turn of the
    active participant is open, the first chunk opens it, stamped with the
    time of that chunk, and the following ones are appended to its content
    in order.  The completion with the same text then records nothing more
    and passes the turn to the other participant. *)
Theorem streamed_chunks_build_one_turn
  (m : debateModel) (now now' : Time) (c : string) (cs : list string) :
  isGenerating m = true ->
  lastTurnIsFrom (history m) (getNextModel m) = false ->
  let m' := run m now (map responseChunkMsg (c :: cs)) in
  history m'
  = (history m ++ [mkTurn (getNextModel m) (Builder_String (c :: cs)) now])%list
  /\ currentTurn m' = currentTurn m
  /\ (let m'' := fst (Update m' (responseCompleteMsg (Builder_String (c :: cs))) now') in
      history m'' = history m'
      /\ currentTurn m'' = (if (currentTurn m =? 0)%Z then 1 else 0)%Z).
Proof.
  intros Hg Hlast. cbv zeta. cbn [map run].
  destruct (Update_chunk m c now) as (Hh' & Hc & _ & _ & _ & Hs).
  pose proof (Update_chunk_flag m c now) as Hg'.
  pose proof (getNextModel_after_chunk m c now) as Hn'.
  set (m1 := fst (Update m (responseChunkMsg c) now)) in *.
  assert (Hh1 : history m1 = (history m ++ [mkTurn (getNextModel m) c now])%list).
  { rewrite Hh'. unfold afterChunk. rewrite Hg.
    unfold lastTurnIsFrom in Hlast.
    destruct (history_cases (history m)) as [E | (h0 & l & E)]; rewrite E in *.
    - reflexivity.
    - rewrite lastTurn_snoc in *. now rewrite Hlast. }
  destruct (chunks_extend_open_turn cs m1 (now + 1)%Z (history m)
              (mkTurn (getNextModel m) c now) (eq_trans Hg' Hg) Hh1
              (eq_sym Hn')) as (E1 & E2 & E3 & E4 & E5).
  cbn [ModelName Content Timestamp] in E1.
  set (m2 := run m1 (now + 1)%Z (map responseChunkMsg cs)) in *.
  split; [exact E1|]. split; [congruence|].
  destruct (Update_complete m2 (Builder_String (c :: cs)) now') as (F1 & F2 & _).
  split.
  - rewrite F1. unfold afterComplete. rewrite E1, lastTurn_snoc. simpl.
    now rewrite String.eqb_refl.
  - rewrite F2, E4, Hc. reflexivity.
Qed.

(** *** The next generation *)

Lemma Update_client (m : debateModel) (msg : Msg) (now : Time) :
  ollamaClient (fst (Update m msg now)) = ollamaClient m.
Proof. destruct msg; Update_cases; reflexivity. Qed.

(** After a completion and after a failure the generation flag is set and
    the next generation is scheduled, for the other participant, with the
    prompt of the topic and of the transcript as it is then. *)
Theorem next_generation_scheduled
  (model1 model2 : string) (client : OllamaClient) (m : debateModel)
  (msg : Msg) (now : Time) :
  reachable model1 model2 client m ->
  model1 <> model2 ->
  (exists fullResponse, msg = responseCompleteMsg fullResponse)
  \/ (exists err, msg = responseErrorMsg err) ->
  let r := Update m msg now in
  isGenerating (fst r) = true
  /\ getNextModel (fst r) <> getNextModel m
  /\ (getNextModel (fst r) = model1 \/ getNextModel (fst r) = model2)
  /\ snd r = generateResponseCmd (ollamaClient m) (getNextModel (fst r))
               (BuildDebatePrompt (topic m) (history (fst r)) (getNextModel (fst r))
                  (length (history (fst r)) =? 0)%nat).
Proof.
  intros Hr Hne Hmsg. cbv zeta.
  destruct (reachable_invariant _ _ _ _ Hr) as (N1 & N2 & Hc & _ & _).
  destruct (Update_names m msg now) as [E1 E2].
  pose proof (Update_client m msg now) as Ecl.
  assert (Hstep : currentTurn (fst (Update m msg now))
                  = (if (currentTurn m =? 0)%Z then 1 else 0)%Z
                  /\ isGenerating (fst (Update m msg now)) = true
                  /\ topic (fst (Update m msg now)) = topic m
                  /\ snd (Update m msg now) = generateResponse (fst (Update m msg now))).
  { destruct Hmsg as [[full ->] | [err ->]].
    - destruct (Update_complete m full now) as (_ & Ec & _ & _ & Et & _).
      repeat split; try assumption.
    - unfold Update, switchTurn. simpl.
      destruct (currentTurn m =? 0)%Z; repeat split. }
  destruct Hstep as (Ec & Eg & Et & Ecmd).
  split; [exact Eg|].
  assert (Hnext : getNextModel (fst (Update m msg now)) <> getNextModel m
                  /\ (getNextModel (fst (Update m msg now)) = model1
                      \/ getNextModel (fst (Update m msg now)) = model2)).
  { unfold getNextModel. rewrite E1, E2, Ec, N1, N2.
    destruct Hc as [-> | ->]; simpl; split; auto; congruence. }
  destruct Hnext as [Hd Hin]. split; [exact Hd|]. split; [exact Hin|].
  rewrite Ecmd. unfold generateResponse. now rewrite Ecl, Et.
Qed.

(** The prompt of a scheduled generation: [generateResponse] sets the
    opening flag from the emptiness of the transcript.  When no text of the
    model (the topic, the name of the active participant, the names and the
    contents of the turns) contains the sentence of the opening-position
    instruction, the prompt contains that instruction exactly when the
    transcript is empty; when none contains the sentence of the
    opposing-position instruction, the prompt does not contain that
    instruction: the second participant is not told to oppose. *)
Theorem scheduled_prompt_instructions (m : debateModel) :
  let prompt :=
    BuildDebatePrompt (topic m) (history m) (getNextModel m)
      (length (history m) =? 0)%nat in
  generateResponse m
  = generateResponseCmd (ollamaClient m) (getNextModel m) prompt
  /\ (~ carries openingSentence (topic m) (getNextModel m) (history m) ->
      (contains prompt openingInstruction <-> history m = []))
  /\ (~ carries opposingSentence (topic m) (getNextModel m) (history m) ->
      ~ contains prompt opposingInstruction).
Proof.
  cbv zeta. split; [reflexivity|]. split.
  - intros Hfree.
    rewrite (prompt_contains_opening_iff _ _ _ _ Hfree).
    destruct (history m); simpl; split;
      try (intros [? ?]); try discriminate; auto.
  - intros Hfree Hc.
    apply (prompt_contains_opposing_iff _ _ _ _ Hfree) in Hc as [Hflag Hne].
    destruct (history m); [contradiction | discriminate].
Qed.

(** [formatDebateHistory] shows the turns as [FormatHistory] does, with a
    blank line after the last one as well, and then, while a generation is
    on, the line that says who is thinking. *)
Theorem formatDebateHistory_FormatHistory (m : debateModel) :
  formatDebateHistory m
  = match history m with
    | [] => ""
    | _ => FormatHistory (history m) ++ nl ++ nl
    end
    ++ (if isGenerating m
        then "[" ++ getNextModel m ++ " is thinking...]" ++ nl
        else "").
Proof.
  unfold formatDebateHistory.
  assert (H : forall h (acc : Builder),
             fold_left
               (fun output turn =>
                  WriteString output
                    ("[" ++ ModelName turn ++ "]: " ++ Content turn ++ nl ++ nl))
               h acc
             = (acc ++ map (fun t => (turnLine t ++ nl ++ nl)%string) h)%list).
  { induction h as [|t h IH]; intros acc; simpl; [now rewrite app_nil_r|].
    rewrite IH. unfold WriteString, turnLine.
    rewrite <- app_assoc. simpl. now rewrite !append_assoc. }
  rewrite H. simpl app.
  assert (J : forall h,
             Builder_String (map (fun t => (turnLine t ++ nl ++ nl)%string) h)
             = match h with
               | [] => ""
               | _ => String.concat (nl ++ nl) (map turnLine h) ++ nl ++ nl
               end).
  { induction h as [|t h IH]; [reflexivity|].
    cbn [map Builder_String fold_right]. fold (Builder_String (map (fun t => (turnLine t ++ nl ++ nl)%string) h)).
    rewrite IH, concat_cons. destruct h as [|u h].
    - simpl. now rewrite !append_empty_r.
    - cbn [map]. now rewrite !append_assoc. }
  destruct (isGenerating m).
  - unfold WriteString. rewrite Builder_String_app, J.
    cbn [Builder_String fold_right]. rewrite append_empty_r.
    destruct (history m); [reflexivity|]. unfold FormatHistory. now rewrite FormatHistory_loop_join.
  - rewrite J, append_empty_r.
    destruct (history m); [reflexivity|]. unfold FormatHistory. now rewrite FormatHistory_loop_join.
Qed.

End SessionFacts.

(** ** A round of the program: the command runs, its message is handled *)

Section RoundFacts.

Context {W : Widgets}.
Variable json_Unmarshal : string -> error + GenerateResponseRecord.
Variable backend : string -> GenerateRequest -> Transport.

Lemma fold_left_WriteString (l : list string) :
  forall acc : Builder,
    fold_left (fun fullResponse chunk => WriteString fullResponse chunk) l acc
    = (acc ++ l)%list.
Proof.
  induction l as [|c l IH]; intros acc; simpl; [now rewrite app_nil_r|].
  rewrite IH. unfold WriteString. now rewrite <- app_assoc.
Qed.

Lemma scanLoop_finishes (ctx : Context) (bodyErr : option error)
      (pre : list string) (line : string) (post : list string) :
  passes json_Unmarshal ctx 0 pre = true ->
  finishes json_Unmarshal ctx (length pre) line = true ->
  scanLoop json_Unmarshal ctx bodyErr 0 (pre ++ line :: post)%list []
  = mkOutcome (chunksOf json_Unmarshal (pre ++ [line])) None.
Proof.
  intros Hp Hf. rewrite scanLoop_passes by assumption. simpl.
  unfold finishes, isDoneRecord in Hf.
  apply andb_prop in Hf as [Hf Hsend]. apply andb_prop in Hf as [Hscan Hd].
  apply andb_prop in Hd as [Hlen Hd].
  apply negb_true_iff in Hscan, Hlen. rewrite Hscan, chunksOf_app. simpl.
  rewrite Hlen.
  destruct (json_Unmarshal line) as [err | genResp]; [discriminate|].
  rewrite Hd.
  destruct (String.eqb (Response genResp) ""); simpl in *.
  - now rewrite app_nil_r.
  - apply negb_true_iff in Hsend. now rewrite Hsend.
Qed.

(** When the backend answers the request of the active participant with
    status 200 and a stream that reaches a record with the completion flag,
    the command comes back with the completion of the whole text, the
    chunks of the stream put together in order, whatever the [select]
    takes; handled by [Update], it is recorded as one turn of that
    participant when the transcript is empty or ends with a turn of the
    other participant with another text. *)
Theorem round_records_the_stream
  (m : debateModel) (takesClosed : bool) (now : Time)
  (resp : HTTPResponse) (pre : list string) (line : string) (post : list string) :
  let modelName := getNextModel m in
  let prompt :=
    BuildDebatePrompt (topic m) (history m) modelName (length (history m) =? 0)%nat in
  backend (baseURL (ollamaClient m) ++ "/api/generate")
          (mkRequest modelName prompt true) = Responds resp ->
  StatusCode resp = StatusOK ->
  Body resp = (pre ++ line :: post)%list ->
  passes json_Unmarshal context_Background 0 pre = true ->
  finishes json_Unmarshal context_Background (length pre) line = true ->
  let text := Builder_String (chunksOf json_Unmarshal (pre ++ [line])) in
  generateResponse_run json_Unmarshal backend m takesClosed = responseCompleteMsg text
  /\ ((history m = []
       \/ exists t, lastTurn (history m) = Some t
                    /\ Content t <> text /\ ModelName t <> modelName) ->
      history (debateRound json_Unmarshal backend m takesClosed now)
      = (history m ++ [mkTurn modelName text now])%list).
Proof.
  intros modelName prompt Hb Hst Hbody Hp Hf text.
  assert (Hmsg : generateResponse_run json_Unmarshal backend m takesClosed
                 = responseCompleteMsg text).
  { unfold generateResponse_run, OllamaClient_GenerateResponse.
    fold modelName. fold prompt. rewrite Hb.
    unfold GenerateResponse. apply Z.eqb_eq in Hst. rewrite Hst. simpl negb. cbv iota.
    rewrite Hbody, scanLoop_finishes by assumption.
    unfold collectOutcome. simpl chunks. simpl failure.
    now rewrite fold_left_WriteString. }
  split; [exact Hmsg|].
  intros Hcond. unfold debateRound. rewrite Hmsg.
  now apply completion_appends.
Qed.

(** When the generation fails, the command comes back with the failure,
    and [Update] then leaves the transcript, shows the error and passes the
    turn on; unless the [select] takes the closed chunk channel first: then
    it comes back with a completion of the chunks received so far, which is
    handled as any completion, and the error is not shown. *)
Theorem round_of_a_failed_generation
  (m : debateModel) (takesClosed : bool) (now : Time) (err : error) :
  let modelName := getNextModel m in
  let prompt :=
    BuildDebatePrompt (topic m) (history m) modelName (length (history m) =? 0)%nat in
  let out :=
    OllamaClient_GenerateResponse json_Unmarshal backend (ollamaClient m)
      context_Background modelName prompt in
  failure out = Some err ->
  let msg := generateResponse_run json_Unmarshal backend m takesClosed in
  let m' := debateRound json_Unmarshal backend m takesClosed now in
  (takesClosed = false ->
   msg = responseErrorMsg err
   /\ history m' = history m
   /\ errorMsg m' = "Error: " ++ Error err)
  /\ (takesClosed = true ->
      msg = responseCompleteMsg (Builder_String (chunks out))
      /\ history m' = afterComplete m (Builder_String (chunks out)) now
      /\ errorMsg m' = errorMsg m).
Proof.
  intros modelName prompt out Hfail msg m'.
  assert (Hmsg : msg = if takesClosed
                       then responseCompleteMsg (Builder_String (chunks out))
                       else responseErrorMsg err).
  { subst msg. unfold generateResponse_run, collectOutcome.
    fold modelName. fold prompt. fold out. rewrite Hfail.
    now rewrite fold_left_WriteString. }
  subst m'. unfold debateRound. fold msg. rewrite Hmsg.
  split; intros ->.
  - split; [reflexivity|]. split.
    + apply failure_keeps_history.
    + unfold Update, switchTurn. simpl.
      destruct (currentTurn m =? 0)%Z; reflexivity.
  - split; [reflexivity|].
    destruct (Update_complete m (Builder_String (chunks out)) now) as (Hh & _).
    split; [exact Hh|].
    unfold Update, switchTurn. simpl.
    destruct (currentTurn _ =? 0)%Z; simpl;
      repeat match goal with
        | |- context [if ?c then _ else _] => destruct c
        | |- context [match lastTurn ?h with _ => _ end] => destruct (lastTurn h)
        end; reflexivity.
Qed.

End RoundFacts.

(** ** The further properties on the session of the design *)

Lemma topic_accepted_iff_not_blank_witness :
  let m := run sessionStart 0 [KeyMsg "t"] in
  state (fst (Update m (KeyMsg "enter") 1)) = stateDebating <-> ~ blank "t".
Proof.
  intros m. exact (proj1 (topic_accepted_iff_not_blank m 1 eq_refl)).
Defined.

Lemma reachable_states_witness :
  let m := run sessionRunning 2 [responseCompleteMsg "Remote work wins."] in
  state m <> stateError
  /\ (state m = stateInput -> topic m = "")
  /\ (state m = stateDebating -> isGenerating m = true).
Proof.
  intros m.
  exact (reachable_states "A" "B" (NewOllamaClient "") m
           (sessionRunning_reachable _ _)).
Defined.

Lemma sessionRunning_not_input : state sessionRunning <> stateInput.
Proof. discriminate. Defined.

Lemma topic_fixed_once_started_witness :
  topic (run sessionRunning 2
           [responseCompleteMsg "Remote work wins."; KeyMsg "enter"; stopDebateMsg])
  = "t".
Proof.
  exact (proj1 (topic_fixed_once_started
                  [responseCompleteMsg "Remote work wins."; KeyMsg "enter"; stopDebateMsg]
                  sessionRunning 2 sessionRunning_not_input)).
Defined.

Lemma stop_keeps_session_witness :
  let r := Update sessionRunning (KeyMsg "q") 2 in
  snd r = tea_Quit
  /\ history (fst r) = history sessionRunning
  /\ topic (fst r) = topic sessionRunning
  /\ currentTurn (fst r) = currentTurn sessionRunning
  /\ (state sessionRunning = stateDebating -> state (fst r) = stateStopped)
  /\ fst (Update (fst r) (KeyMsg "q") 3) = fst r.
Proof.
  exact (stop_keeps_session sessionRunning (KeyMsg "q") 2 3 (or_introl eq_refl)).
Defined.

Lemma streamed_chunks_build_one_turn_witness :
  history (run sessionRunning 2
             (map responseChunkMsg ["Remote"; " work"; " wins."]))
  = [mkTurn "A" "Remote work wins." 2].
Proof.
  exact (proj1 (streamed_chunks_build_one_turn sessionRunning 2 5
                  "Remote" [" work"; " wins."] eq_refl eq_refl)).
Defined.

Lemma A_is_not_B : "A" <> "B".
Proof. discriminate. Defined.

Lemma next_generation_scheduled_witness :
  let r := Update sessionRunning (responseErrorMsg (Errorf_status 503)) 2 in
  isGenerating (fst r) = true /\ getNextModel (fst r) <> getNextModel sessionRunning.
Proof.
  intros r.
  pose proof (next_generation_scheduled "A" "B" (NewOllamaClient "") sessionRunning
                (responseErrorMsg (Errorf_status 503)) 2
                (sessionRunning_reachable [] 0) A_is_not_B
                (or_intror (ex_intro _ (Errorf_status 503) eq_refl))) as H.
  exact (conj (proj1 H) (proj1 (proj2 H))).
Defined.

(** The second participant's first turn in the session of the scenario. *)
Lemma scheduled_prompt_instructions_witness :
  let m := run sessionRunning 2 [responseCompleteMsg "Remote work wins."] in
  history m = [mkTurn "A" "Remote work wins." 2]
  /\ ~ carries opposingSentence (topic m) (getNextModel m) (history m)
  /\ ~ contains (BuildDebatePrompt "t" [mkTurn "A" "Remote work wins." 2] "B" false)
         opposingInstruction.
Proof.
  intros m.
  assert (H : ~ carries opposingSentence (topic m) (getNextModel m) (history m)).
  { intros H. apply carriesb_complete in H. vm_compute in H. discriminate. }
  split; [reflexivity|]. split; [exact H|].
  exact (proj2 (proj2 (scheduled_prompt_instructions m)) H).
Defined.

(** A backend that streams two records, the second with the completion
    flag, and one that cannot be reached. *)
Lemma round_records_the_stream_witness :
  history
    (debateRound canonicalUnmarshal
       (fun _ _ =>
          Responds (mkResponse 200
                      [recordLine "A" "Remote" false;
                       recordLine "A" " work wins." true] None))
       sessionRunning false 2)
  = [mkTurn "A" "Remote work wins." 2].
Proof.
  refine (proj2
            (round_records_the_stream canonicalUnmarshal
               (fun _ _ =>
                  Responds (mkResponse 200
                              [recordLine "A" "Remote" false;
                               recordLine "A" " work wins." true] None))
               sessionRunning false 2
               (mkResponse 200
                  [recordLine "A" "Remote" false;
                   recordLine "A" " work wins." true] None)
               [recordLine "A" "Remote" false]
               (recordLine "A" " work wins." true) []
               eq_refl eq_refl eq_refl eq_refl eq_refl)
            (or_introl eq_refl)).
Defined.

Lemma round_of_a_failed_generation_witness :
  let unreachable := fun (_ : string) (_ : GenerateRequest) =>
                       DoFails (errors_New "connection refused") in
  errorMsg (debateRound canonicalUnmarshal unreachable sessionRunning false 2)
  = "Error: failed to send request: connection refused"
  /\ history (debateRound canonicalUnmarshal unreachable sessionRunning true 2)
     = [mkTurn "A" "" 2].
Proof.
  intros unreachable. split.
  - exact (proj2 (proj2 (proj1
             (round_of_a_failed_generation canonicalUnmarshal unreachable
                sessionRunning false 2
                (Errorf_w "failed to send request" (errors_New "connection refused"))
                eq_refl) eq_refl))).
  - exact (proj1 (proj2 (proj2
             (round_of_a_failed_generation canonicalUnmarshal unreachable
                sessionRunning true 2
                (Errorf_w "failed to send request" (errors_New "connection refused"))
                eq_refl) eq_refl))).
Defined.

(** ** The turns that are not the last *)

Section TranscriptFacts.

Context {W : Widgets}.

Lemma Update_keeps_turns (m : debateModel) (msg : Msg) (now : Time) :
  (length (history m) <= length (history (fst (Update m msg now))))%nat
  /\ forall i t,
      nth_error (history m) i = Some t ->
      exists t',
        nth_error (history (fst (Update m msg now))) i = Some t'
        /\ ModelName t' = ModelName t
        /\ ((S i < length (history m))%nat -> t' = t).
Proof.
  destruct (Update_history_shape m msg now)
    as [-> | [[u ->] | (h0 & t0 & t' & E & -> & Hname)]].
  - split; [lia|]. intros i t Hn. exists t. auto.
  - split; [rewrite length_app; lia|].
    intros i t Hn. exists t. split; [|auto].
    rewrite nth_error_app1; [exact Hn|]. apply nth_error_Some. congruence.
  - rewrite E. split; [rewrite !length_app; simpl; lia|].
    intros i t Hn. rewrite length_app. simpl.
    destruct (Nat.lt_ge_cases i (length h0)) as [Hlt | Hge].
    + rewrite nth_error_app1 in Hn by assumption.
      exists t. rewrite nth_error_app1 by assumption. auto.
    + assert (Hi : i = length h0).
      { assert (i < length (h0 ++ [t0]))%nat
          by (apply nth_error_Some; congruence).
        rewrite length_app in H. simpl in H. lia. }
      subst i. rewrite nth_error_app2, Nat.sub_diag in Hn |- * by lia.
      simpl in Hn |- *. injection Hn as <-.
      exists t'. repeat split; [assumption | lia].
Qed.

(** Whatever messages come, the transcript does not get shorter, every
    turn keeps its place and its participant, and every turn but the last
    stays as it is: only the content and the time of the last turn can still
    be rewritten. *)
Theorem earlier_turns_are_kept (msgs : list Msg) :
  forall (m : debateModel) (now : Time) (i : nat) (t : Turn),
    nth_error (history m) i = Some t ->
    (length (history m) <= length (history (run m now msgs)))%nat
    /\ exists t',
        nth_error (history (run m now msgs)) i = Some t'
        /\ ModelName t' = ModelName t
        /\ ((S i < length (history m))%nat -> t' = t).
Proof.
  induction msgs as [|msg msgs IH]; intros m now i t Hn; simpl.
  - split; [lia|]. exists t. auto.
  - destruct (Update_keeps_turns m msg now) as [Hlen Hkeep].
    destruct (Hkeep i t Hn) as (t1 & Hn1 & Hname1 & Hsame1).
    destruct (IH (fst (Update m msg now)) (now + 1)%Z i t1 Hn1)
      as (L & t2 & Hn2 & Hname2 & Hsame2).
    split; [lia|]. exists t2. split; [exact Hn2|]. split; [congruence|].
    intros Hi. rewrite Hsame2 by lia. now apply Hsame1.
Qed.

End TranscriptFacts.

Lemma earlier_turns_are_kept_witness :
  let m := run sessionRunning 2
             [responseCompleteMsg "Remote work wins.";
              responseCompleteMsg "Offices build teams."] in
  exists t',
    nth_error
      (history (run m 4 [responseErrorMsg (Errorf_status 503);
                         responseCompleteMsg "Teams need rooms."; stopDebateMsg]))
      0
    = Some t'
    /\ ModelName t' = "A"
    /\ ((1 < length (history m))%nat -> t' = mkTurn "A" "Remote work wins." 2).
Proof.
  intros m.
  exact (proj2 (earlier_turns_are_kept
                  [responseErrorMsg (Errorf_status 503);
                   responseCompleteMsg "Teams need rooms."; stopDebateMsg]
                  m 4 0%nat (mkTurn "A" "Remote work wins." 2) eq_refl)).
Defined.
